(** * bmalloc::AsyncTask: the state register, the controller and the worker loop

    Source: Source/bmalloc/bmalloc/AsyncTask.h.

    The class coordinates one controlling thread (the caller of [run] and
    [stop]) with the worker threads it spawns, through one atomic register
    [m_state], a mutex/condition pair and a thread handle.  Every atomic
    operation of the source uses the default sequentially consistent order,
    so an execution is an interleaving of the atomic steps of the threads.
    The embedding below gives each thread a program counter naming the
    source line it is about to execute, and one executable step function
    per thread.

    What is abstracted:
    - time: the idle timeout [exitDelay] may fire at any moment while the
      worker is blocked in [wait_for];
    - the work callable [(m_object.*m_function)()]: an invocation is counted
      when it begins and is a step of the worker when it returns;
    - [compare_exchange_weak] may fail although the register holds the
      expected value (the C++ standard allows it); the choice is an input of
      the step;
    - the public member functions are called one at a time, by what is
      called the controlling thread below ([m_thread] is a plain
      [std::thread] that [stop] and [runSlowCase] both use without
      synchronisation); the worker threads interleave freely with the
      steps of these calls; a second caller that overlaps the first is
      modelled apart ([Callers]);
    - whether [BASSERT] is compiled in is a parameter (BAssert.h). *)

From stdpp Require Import base tactics option list.

Set Default Proof Using "Type".

(** ** Data *)

(** [enum State { Exited, ExitRequested, Sleeping, Running, RunRequested }] *)
Inductive State : Set :=
  | Exited
  | ExitRequested
  | Sleeping
  | Running
  | RunRequested.

#[global] Instance State_eq_dec : EqDecision State.
Proof. solve_decision. Defined.

(** Result of one [compare_exchange_weak]. *)
Inductive outcome : Set :=
  | Swapped     (* the register held the expected value and was replaced *)
  | Mismatch    (* the register held another value *)
  | Spurious.   (* the register held the expected value, the attempt failed *)

#[global] Instance outcome_eq_dec : EqDecision outcome.
Proof. solve_decision. Defined.

(** Position of a worker thread inside [threadRunLoop] (lines 147-165). *)
Inductive wpc : Set :=
  | WRunCas       (* 148-149: CAS RunRequested -> Running *)
  | WCall         (* 150: inside (m_object.*m_function)() *)
  | WSleepCas     (* 152-153: CAS Running -> Sleeping *)
  | WLock         (* 154: std::unique_lock<Mutex> lock(m_conditionMutex) *)
  | WWaitPred     (* 155: wait_for evaluates the predicate, mutex held *)
  | WBlocked      (* 155: blocked on m_condition, mutex released *)
  | WWoken        (* 155: woken, taking the mutex again *)
  | WTimedOut     (* 155: exitDelay elapsed, taking the mutex again *)
  | WUnlock       (* 156: lock leaves scope *)
  | WIdleExitCas  (* 158-159: CAS Sleeping -> Exited *)
  | WStopExitCas  (* 162-163: CAS ExitRequested -> Exited *)
  | WReturn       (* 160 / 164: return *)
  | WDone.        (* the thread function has returned *)

#[global] Instance wpc_eq_dec : EqDecision wpc.
Proof. solve_decision. Defined.

(** A worker thread: where it is, and the outcomes of the CAS attempts it
    made so far in the current iteration of the loop, most recent first (a
    history variable; no step reads it). *)
Record thread : Set := mkThread {
  pc : wpc;
  attempts : list outcome
}.

(** Position of the controlling thread. *)
Inductive cpc : Set :=
  | COutside       (* not inside a member function *)
  | CRunTest       (* run(), line 89: if (m_state == RunRequested) *)
  | CRunExchange   (* runSlowCase(), line 115: m_state.exchange(RunRequested) *)
  | CRunLock       (* line 120: lock_guard constructor *)
  | CRunNotify     (* line 121: m_condition.notify_all() *)
  | CRunUnlock     (* line 122: return, lock_guard destructor *)
  | CRunSpawn      (* lines 126-128: detach, m_thread = std::thread(...) *)
  | CStopExchange  (* stop(), line 98: m_state.exchange(ExitRequested) *)
  | CStopLock      (* line 102 *)
  | CStopNotify    (* line 103 *)
  | CStopUnlock    (* line 104 *)
  | CStopJoin      (* lines 108-109: if (m_thread.joinable()) m_thread.join() *)
  | CAborted.      (* BASSERT failed: the process crashed *)

#[global] Instance cpc_eq_dec : EqDecision cpc.
Proof. solve_decision. Defined.

(** Holder of [m_conditionMutex]. *)
Inductive owner : Set :=
  | ByController
  | ByWorker (t : nat).

#[global] Instance owner_eq_dec : EqDecision owner.
Proof. solve_decision. Defined.

(** The instance ([m_state], [m_conditionMutex], [m_thread]; the waiters of
    [m_condition] are the threads at [WBlocked]), the threads spawned for it
    (indexed by thread id), the controlling thread, and counters of the
    observable events. [m_object] and [m_function] are never assigned after
    construction and are represented by the [invoked] counter. *)
Record System : Set := mkSystem {
  m_state : State;
  m_conditionMutex : option owner;
  m_thread : option nat;          (* Some t: joinable handle of thread t *)
  threads : list thread;
  ctl : cpc;
  invoked : nat;                  (* invocations of the callable begun *)
  notified : nat;                 (* calls of m_condition.notify_all() *)
  joined : nat;                   (* calls of m_thread.join() returned *)
  detached : nat                  (* calls of m_thread.detach() *)
}.

(** The fields of the C++ object. *)
Definition instance (s : System) : State * option owner * option nat :=
  (m_state s, m_conditionMutex s, m_thread s).

Definition set_state (v : State) (s : System) : System :=
  mkSystem v (m_conditionMutex s) (m_thread s) (threads s) (ctl s)
           (invoked s) (notified s) (joined s) (detached s).

Definition set_mutex (o : option owner) (s : System) : System :=
  mkSystem (m_state s) o (m_thread s) (threads s) (ctl s)
           (invoked s) (notified s) (joined s) (detached s).

Definition set_handle (h : option nat) (s : System) : System :=
  mkSystem (m_state s) (m_conditionMutex s) h (threads s) (ctl s)
           (invoked s) (notified s) (joined s) (detached s).

Definition set_threads (l : list thread) (s : System) : System :=
  mkSystem (m_state s) (m_conditionMutex s) (m_thread s) l (ctl s)
           (invoked s) (notified s) (joined s) (detached s).

Definition set_ctl (c : cpc) (s : System) : System :=
  mkSystem (m_state s) (m_conditionMutex s) (m_thread s) (threads s) c
           (invoked s) (notified s) (joined s) (detached s).

Definition count_invoked (s : System) : System :=
  mkSystem (m_state s) (m_conditionMutex s) (m_thread s) (threads s) (ctl s)
           (S (invoked s)) (notified s) (joined s) (detached s).

Definition count_notified (s : System) : System :=
  mkSystem (m_state s) (m_conditionMutex s) (m_thread s) (threads s) (ctl s)
           (invoked s) (S (notified s)) (joined s) (detached s).

Definition count_joined (s : System) : System :=
  mkSystem (m_state s) (m_conditionMutex s) (m_thread s) (threads s) (ctl s)
           (invoked s) (notified s) (S (joined s)) (detached s).

Definition count_detached (s : System) : System :=
  mkSystem (m_state s) (m_conditionMutex s) (m_thread s) (threads s) (ctl s)
           (invoked s) (notified s) (joined s) (S (detached s)).

(** Thread [t] moves to [p]; [log] is its new attempt history. *)
Definition set_thread (t : nat) (p : wpc) (log : list outcome) (s : System) : System :=
  set_threads (<[t := mkThread p log]> (threads s)) s.

(** ** Atomic operations on the register *)

(** [m_state.exchange(desired)]: the previous value and the new register. *)
Definition exchange (desired cur : State) : State * State := (cur, desired).

(** How a [compare_exchange_weak(expected, _)] ends on register [cur]. *)
Definition cas_outcome (spurious : bool) (expected cur : State) : outcome :=
  if decide (cur = expected)
  then (if spurious then Spurious else Swapped)
  else Mismatch.

(** [m_state.compare_exchange_weak(expected, desired)]: the returned flag
    and the new register. *)
Definition compare_exchange_weak (spurious : bool) (expected desired cur : State)
  : bool * State :=
  match cas_outcome spurious expected cur with
  | Swapped => (true, desired)
  | _ => (false, cur)
  end.

(** ** The constructor (lines 70-78) *)

Definition AsyncTask : System :=
  mkSystem Exited None None [] COutside 0 0 0 0.

(** ** The worker: [threadRunLoop] (lines 137-166) *)

(** One CAS attempt of thread [t]: on success the register is replaced and
    the thread continues at [hit], otherwise at [miss]. *)
Definition cas_step (t : nat) (spurious : bool) (expected desired : State)
    (log : list outcome) (hit miss : wpc) (s : System) : System :=
  let o := cas_outcome spurious expected (m_state s) in
  match compare_exchange_weak spurious expected desired (m_state s) with
  | (true, v) => set_thread t hit (o :: log) (set_state v s)
  | (false, _) => set_thread t miss (o :: log) s
  end.

(** The next step of worker thread [t]. [alt] chooses a spurious failure at
    a CAS and the timeout at [WBlocked]; [None]: the thread cannot move. *)
Definition worker_step (t : nat) (alt : bool) (s : System) : option System :=
  match threads s !! t with
  | None => None
  | Some th =>
    match pc th with
    | WRunCas =>
        match compare_exchange_weak alt RunRequested Running (m_state s) with
        | (true, v) =>
            Some (count_invoked (set_thread t WCall [Swapped] (set_state v s)))
        | (false, _) =>
            Some (set_thread t WSleepCas
                    [cas_outcome alt RunRequested (m_state s)] s)
        end
    | WCall => Some (set_thread t WSleepCas (attempts th) s)
    | WSleepCas =>
        Some (cas_step t alt Running Sleeping (attempts th) WLock WIdleExitCas s)
    | WLock =>
        match m_conditionMutex s with
        | None => Some (set_thread t WWaitPred (attempts th)
                          (set_mutex (Some (ByWorker t)) s))
        | Some _ => None
        end
    | WWaitPred =>
        if decide (m_state s ≠ Sleeping)
        then Some (set_thread t WUnlock (attempts th) s)
        else Some (set_thread t WBlocked (attempts th) (set_mutex None s))
    | WBlocked =>
        Some (set_thread t (if alt then WTimedOut else WWoken) (attempts th) s)
    | WWoken =>
        match m_conditionMutex s with
        | None => Some (set_thread t WWaitPred (attempts th)
                          (set_mutex (Some (ByWorker t)) s))
        | Some _ => None
        end
    | WTimedOut =>
        match m_conditionMutex s with
        | None => Some (set_thread t WUnlock (attempts th)
                          (set_mutex (Some (ByWorker t)) s))
        | Some _ => None
        end
    | WUnlock => Some (set_thread t WIdleExitCas (attempts th) (set_mutex None s))
    | WIdleExitCas =>
        Some (cas_step t alt Sleeping Exited (attempts th) WReturn WStopExitCas s)
    | WStopExitCas =>
        Some (cas_step t alt ExitRequested Exited (attempts th) WReturn WRunCas s)
    | WReturn => Some (set_thread t WDone (attempts th) s)
    | WDone => None
    end
  end.

(** ** The controller: [run], [runSlowCase] and [stop] (lines 86-129) *)

Inductive Op : Set := Run | Stop.

(** [m_condition.notify_all()]: every blocked waiter is woken. *)
Definition wake (th : thread) : thread :=
  match pc th with
  | WBlocked => mkThread WWoken (attempts th)
  | _ => th
  end.

Definition notify_all (s : System) : System :=
  count_notified (set_threads (wake <$> threads s) s).

(** [if (m_thread.joinable()) m_thread.detach();
     m_thread = std::thread(&AsyncTask::threadEntryPoint, this);] *)
Definition spawn (s : System) : System :=
  let s1 := match m_thread s with
            | Some _ => count_detached (set_handle None s)
            | None => s
            end in
  set_handle (Some (length (threads s1)))
    (set_threads (threads s1 ++ [mkThread WRunCas []]) s1).

Section Controller.

(** Whether [BASSERT] is compiled in (BAssert.h: debug builds only). *)
Variable bassert_enabled : bool.

(** Where [runSlowCase] continues after its exchange returned [old]
    (lines 116-125). *)
Definition after_run_exchange (old : State) : cpc :=
  match old with
  | RunRequested | Running => COutside
  | Sleeping => CRunLock
  | Exited => CRunSpawn
  | ExitRequested => if bassert_enabled then CAborted else CRunSpawn
  end.

(** The controlling thread enters [run()] or [stop()]. *)
Definition call_step (op : Op) (s : System) : option System :=
  match ctl s with
  | COutside =>
      Some (set_ctl (match op with Run => CRunTest | Stop => CStopExchange end) s)
  | _ => None
  end.

(** The next step of the controlling thread inside a member function;
    [None]: it is outside, blocked or crashed. *)
Definition ctl_step (s : System) : option System :=
  match ctl s with
  | COutside => None
  | CRunTest =>
      if decide (m_state s = RunRequested)
      then Some (set_ctl COutside s)
      else Some (set_ctl CRunExchange s)
  | CRunExchange =>
      let '(oldState, v) := exchange RunRequested (m_state s) in
      Some (set_ctl (after_run_exchange oldState) (set_state v s))
  | CRunLock =>
      match m_conditionMutex s with
      | None => Some (set_ctl CRunNotify (set_mutex (Some ByController) s))
      | Some _ => None
      end
  | CRunNotify => Some (set_ctl CRunUnlock (notify_all s))
  | CRunUnlock => Some (set_ctl COutside (set_mutex None s))
  | CRunSpawn => Some (set_ctl COutside (spawn s))
  | CStopExchange =>
      let '(oldState, v) := exchange ExitRequested (m_state s) in
      Some (set_ctl (if decide (oldState = Sleeping) then CStopLock else CStopJoin)
              (set_state v s))
  | CStopLock =>
      match m_conditionMutex s with
      | None => Some (set_ctl CStopNotify (set_mutex (Some ByController) s))
      | Some _ => None
      end
  | CStopNotify => Some (set_ctl CStopUnlock (notify_all s))
  | CStopUnlock => Some (set_ctl CStopJoin (set_mutex None s))
  | CStopJoin =>
      match m_thread s with
      | None => Some (set_ctl COutside s)
      | Some t =>
          match threads s !! t with
          | Some th =>
              if decide (pc th = WDone)
              then Some (set_ctl COutside (count_joined (set_handle None s)))
              else None
          | None => None
          end
      end
  | CAborted => None
  end.

(** ** Interleavings *)

Inductive action : Set :=
  | Call (op : Op)              (* the controller enters run() or stop() *)
  | Ctl                         (* the controller performs its next step *)
  | Wk (t : nat) (alt : bool).  (* worker t performs its next step *)

#[global] Instance Op_eq_dec : EqDecision Op.
Proof. solve_decision. Defined.

#[global] Instance action_eq_dec : EqDecision action.
Proof. solve_decision. Defined.

(** One step of the system; after a failed BASSERT nothing runs. *)
Definition step (a : action) (s : System) : option System :=
  match ctl s with
  | CAborted => None
  | _ =>
    match a with
    | Call op => call_step op s
    | Ctl => ctl_step s
    | Wk t alt => worker_step t alt s
    end
  end.

(** A schedule, executed from left to right. *)
Fixpoint exec (l : list action) (s : System) : option System :=
  match l with
  | [] => Some s
  | a :: l' =>
      match step a s with
      | Some s' => exec l' s'
      | None => None
      end
  end.

Definition reachable (s : System) : Prop :=
  ∃ l, exec l AsyncTask = Some s.

End Controller.


(** ** Vocabulary of the statements *)

(** A thread is in the loop until one of its exit CAS attempts succeeded. *)
Definition in_loop (p : wpc) : bool :=
  match p with
  | WReturn | WDone => false
  | _ => true
  end.

(** Thread [t] exists and is at [p]. *)
Definition thread_at (s : System) (t : nat) (p : wpc) : Prop :=
  ∃ th, threads s !! t = Some th ∧ pc th = p.

(** No thread of the instance is in the loop. *)
Definition quiet (s : System) : Prop :=
  ∀ t th, threads s !! t = Some th → in_loop (pc th) = false.

(** The member function the controlling thread is executing. *)
Definition op_of (c : cpc) : option Op :=
  match c with
  | CRunTest | CRunExchange | CRunLock | CRunNotify | CRunUnlock | CRunSpawn =>
      Some Run
  | CStopExchange | CStopLock | CStopNotify | CStopUnlock | CStopJoin =>
      Some Stop
  | COutside | CAborted => None
  end.

(** [stop()] has performed its exchange and has not returned. *)
Definition stopping (c : cpc) : bool :=
  match c with
  | CStopLock | CStopNotify | CStopUnlock | CStopJoin => true
  | _ => false
  end.

(** The controlling thread holds [m_conditionMutex]. *)
Definition ctl_holds (c : cpc) : bool :=
  match c with
  | CRunNotify | CRunUnlock | CStopNotify | CStopUnlock => true
  | _ => false
  end.

(** A worker at [p] is inside the idle wait (lines 154-156). *)
Definition waiting (p : wpc) : bool :=
  match p with
  | WLock | WWaitPred | WBlocked | WWoken | WTimedOut | WUnlock => true
  | _ => false
  end.

(** A worker at [p] holds [m_conditionMutex]. *)
Definition wk_holds (p : wpc) : bool :=
  match p with
  | WWaitPred | WUnlock => true
  | _ => false
  end.

(** ** The invariant of the reachable states *)

(** What holds of every thread of the instance. *)
Record thread_inv (s : System) (t : nat) (th : thread) : Prop := mkThreadInv {
  (* the only thread that can be in the loop is the one behind m_thread *)
  ti_handle : in_loop (pc th) = true → m_thread s = Some t;
  ti_not_exited : in_loop (pc th) = true → m_state s ≠ Exited;
  ti_not_spawning : in_loop (pc th) = true → ctl s ≠ CRunSpawn;
  ti_exit_requested :
    in_loop (pc th) = true → m_state s = ExitRequested → stopping (ctl s) = true;
  (* Running is stored by the first CAS only *)
  ti_waiting : waiting (pc th) = true → m_state s ≠ Running;
  (* what the failed attempts of this iteration still tell about the register *)
  ti_idle_cas : ∀ l,
    pc th = WIdleExitCas → attempts th = Mismatch :: l → m_state s ≠ Running;
  ti_stop_cas_running : ∀ o l,
    pc th = WStopExitCas → attempts th = o :: Mismatch :: l → m_state s ≠ Running;
  ti_stop_cas_sleeping : ∀ l,
    pc th = WStopExitCas → attempts th = Mismatch :: l → m_state s ≠ Sleeping
}.

Record Inv (s : System) : Prop := mkInv {
  inv_thread : ∀ t th, threads s !! t = Some th → thread_inv s t th;
  inv_handle_lt : ∀ t, m_thread s = Some t → t < length (threads s);
  inv_spawn : ctl s = CRunSpawn → m_state s = RunRequested;
  inv_stopping :
    stopping (ctl s) = true → m_state s = ExitRequested ∨ m_state s = Exited;
  inv_mutex_worker : ∀ t,
    m_conditionMutex s = Some (ByWorker t) →
    ∃ th, threads s !! t = Some th ∧ wk_holds (pc th) = true;
  inv_mutex_ctl :
    m_conditionMutex s = Some ByController → ctl_holds (ctl s) = true
}.

(** ** Schedules used as concrete inputs *)

(** The state a schedule leads to from a fresh instance. *)
Definition after (bassert_enabled : bool) (l : list action) : System :=
  default AsyncTask (exec bassert_enabled l AsyncTask).

(** [run()] on a fresh instance, up to the spawn of thread 0. *)
Definition first_run : list action := [Call Run; Ctl; Ctl; Ctl].

(** ... and thread 0 wins its first CAS: it is inside the callable. *)
Definition in_call : list action := first_run ++ [Wk 0 false].

(** ... and a second [run()] has passed the test of line 89 and is about
    to exchange while the register reads [Running]. *)
Definition run_during_call : list action := in_call ++ [Call Run; Ctl].


(** [stop()] on a fresh instance. *)
Definition stop_only : list action := [Call Stop; Ctl; Ctl].

(** ** A run request that arrived during an invocation *)

(** The register reads [RunRequested], the controlling thread is outside
    [stop()] and [runSlowCase], and thread [t] is in the loop and not in
    the idle wait. *)
Definition rerun_pending (s : System) (t : nat) : Prop :=
  m_state s = RunRequested ∧
  (ctl s = COutside ∨ ctl s = CRunTest) ∧
  ∃ p, thread_at s t p ∧ in_loop p = true ∧ waiting p = false.

(** Worker steps from [p] to the first CAS of the loop when the register
    keeps reading [RunRequested]. *)
Definition steps_to_run_cas (p : wpc) : nat :=
  match p with
  | WCall => 4
  | WSleepCas => 3
  | WIdleExitCas => 2
  | WStopExitCas => 1
  | _ => 0
  end.

(** ** After [stop()] *)

(** No thread handle is joinable, no thread is in the loop, the register
    reads [ExitRequested] or [Exited], and the controlling thread is
    outside the member functions or in a [stop()] that has nobody to wake. *)
Definition stopped (s : System) : Prop :=
  m_thread s = None ∧
  quiet s ∧
  (m_state s = ExitRequested ∨ m_state s = Exited) ∧
  (ctl s = COutside ∨ ctl s = CStopExchange ∨ ctl s = CStopJoin).

(** Worker steps from [p] to the end of the thread once [stop()] has
    stored [ExitRequested]. *)
Definition steps_to_done (p : wpc) : nat :=
  match p with
  | WDone => 0
  | WReturn => 1
  | WStopExitCas => 2
  | WIdleExitCas => 3
  | WUnlock | WSleepCas => 4
  | WWaitPred | WTimedOut | WCall | WRunCas => 5
  | WLock | WWoken | WBlocked => 6
  end.

(** ** More schedules *)

(** [run()] then [stop()] up to its join, and thread 0 run to its end. *)
Definition stop_at_join : list action :=
  first_run ++ [Call Stop; Ctl] ++
  [Wk 0 false; Wk 0 false; Wk 0 false; Wk 0 false; Wk 0 false].

(** Thread 0 runs the callable, its second CAS fails spuriously and the
    register keeps reading [Running] over the next three attempts; a
    second [run()] then stores [RunRequested] between the first and the
    second attempt of the following iteration. *)
Definition late_request : list action :=
  in_call ++
  [Wk 0 false; Wk 0 true; Wk 0 false; Wk 0 false; Wk 0 false;
   Call Run; Ctl; Ctl; Wk 0 false; Wk 0 false].

(** [run()]; thread 0 runs the callable once, goes idle, times out and
    leaves the loop through its third CAS; the thread function returns. *)
Definition idle_exit : list action :=
  in_call ++
  [Wk 0 false; Wk 0 false; Wk 0 false; Wk 0 false; Wk 0 true;
   Wk 0 false; Wk 0 false; Wk 0 false; Wk 0 false].

(** ** Vocabulary of the further properties *)

(** Number of calls of [run()] in a schedule. *)
Fixpoint run_calls (l : list action) : nat :=
  match l with
  | [] => 0
  | Call Run :: l' => S (run_calls l')
  | _ :: l' => run_calls l'
  end.

(** Invocations made, plus the one the register still asks for, plus the
    one a [run()] that has not yet exchanged may still ask for. *)
Definition run_credit (s : System) : nat :=
  invoked s +
  (if decide (m_state s = RunRequested) then 1 else 0) +
  (match ctl s with CRunTest | CRunExchange => 1 | _ => 0 end).

(** The controlling thread has exchanged away [Sleeping] and has not yet
    called [notify_all] (lines 101-103 and 119-121). *)
Definition notify_ahead (c : cpc) : bool :=
  match c with
  | CRunLock | CRunNotify | CStopLock | CStopNotify => true
  | _ => false
  end.

(** A schedule made of worker steps only. *)
Definition worker_only (l : list action) : Prop :=
  Forall (λ a, match a with Wk _ _ => True | _ => False end) l.

(** Worker steps from position [p] to the end of the thread when the
    register reads [st] and the controlling thread stays outside the
    member functions: a pending request is served once, then the thread
    goes idle, times out and leaves through the third CAS. *)
Definition steps_to_idle_exit (p : wpc) (st : State) : nat :=
  match p, st with
  | WDone, _ => 0
  | WReturn, _ => 1
  | WIdleExitCas, Sleeping => 2
  | WUnlock, Sleeping => 3
  | WSleepCas, Sleeping => 3
  | WTimedOut, Sleeping => 4
  | WRunCas, Sleeping => 4
  | WCall, Sleeping => 4
  | WBlocked, Sleeping => 5
  | WStopExitCas, Sleeping => 5
  | WWaitPred, Sleeping => 6
  | WWoken, Sleeping => 7
  | WLock, Sleeping => 7
  | WSleepCas, Running => 8
  | WCall, Running => 9
  | WRunCas, Running => 9
  | WStopExitCas, Running => 10
  | WIdleExitCas, Running => 11
  | WRunCas, RunRequested => 10
  | WStopExitCas, RunRequested => 11
  | WIdleExitCas, RunRequested => 12
  | WSleepCas, RunRequested => 13
  | WUnlock, RunRequested => 13
  | WCall, RunRequested => 14
  | WWaitPred, RunRequested => 14
  | WTimedOut, RunRequested => 14
  | WBlocked, RunRequested => 15
  | WWoken, RunRequested => 15
  | WLock, RunRequested => 15
  | _, _ => 16
  end.


(** The register asks for a run, thread [t] is in the loop and the
    controlling thread is not inside [stop()]. *)
Definition request_pending (s : System) (t : nat) : Prop :=
  m_state s = RunRequested ∧
  op_of (ctl s) ≠ Some Stop ∧
  ∃ p, thread_at s t p ∧ in_loop p = true.


(** ** Schedules for the further properties *)

(** Thread 0 has run the callable, gone idle and is blocked in the wait. *)
Definition asleep : list action :=
  in_call ++ [Wk 0 false; Wk 0 false; Wk 0 false; Wk 0 false].

(** ... and [run()] has exchanged [Sleeping] for [RunRequested] and is
    about to take the mutex. *)
Definition run_while_asleep : list action := asleep ++ [Call Run; Ctl; Ctl].

(** Thread 0 holds the mutex and is about to evaluate the predicate. *)
Definition at_wait_pred : list action :=
  in_call ++ [Wk 0 false; Wk 0 false; Wk 0 false].

(** [stop()] has exchanged and waits in [join] while thread 0 is inside
    the callable. *)
Definition stop_during_call : list action := in_call ++ [Call Stop; Ctl].


(** The number of steps [run()] has still ahead of it, at most (lines 88-91
    and 115-128 have no loop). *)
Definition run_rank (c : cpc) : nat :=
  match c with
  | CRunTest => 5
  | CRunExchange => 4
  | CRunLock => 3
  | CRunNotify => 2
  | CRunUnlock | CRunSpawn => 1
  | _ => 0
  end.

(** ** A second calling thread *)

(** [run()] and [stop()] take no lock of their own: nothing in the class
    keeps a second thread from entering one of them while the controlling
    thread is inside another. [other] is the position of such a second
    caller, which executes the same member functions on the same object. *)
Record Callers : Set := mkCallers {
  sys : System;
  other : cpc
}.

Inductive caller_action : Set :=
  | First (a : action)     (* a step of the system as before *)
  | OtherCall (op : Op)    (* the second caller enters [run()] or [stop()] *)
  | OtherCtl.              (* the next step of the second caller *)

(** The two callers exchange their places. *)
Definition swap_callers (c : Callers) : Callers :=
  mkCallers (set_ctl (other c) (sys c)) (ctl (sys c)).

(** A step of the system, the second caller staying where it is. *)
Definition on_sys (f : System → option System) (c : Callers) : option Callers :=
  match f (sys c) with
  | Some s' => Some (mkCallers s' (other c))
  | None => None
  end.

(** The same step taken by the second caller. *)
Definition as_other (f : System → option System) (c : Callers) : option Callers :=
  match on_sys f (swap_callers c) with
  | Some c' => Some (swap_callers c')
  | None => None
  end.

(** One step of the system with two callers; a failed [BASSERT] of either
    caller ends the process. *)
Definition caller_step (debug : bool) (a : caller_action) (c : Callers)
  : option Callers :=
  match ctl (sys c), other c with
  | CAborted, _ | _, CAborted => None
  | _, _ =>
    match a with
    | First a => on_sys (step debug a) c
    | OtherCall op => as_other (step debug (Call op)) c
    | OtherCtl => as_other (step debug Ctl) c
    end
  end.

Fixpoint caller_exec (debug : bool) (l : list caller_action) (c : Callers)
  : option Callers :=
  match l with
  | [] => Some c
  | a :: l' =>
      match caller_step debug a c with
      | Some c' => caller_exec debug l' c'
      | None => None
      end
  end.

(** Thread 0 is inside the callable and [stop()] has exchanged; then the
    second caller goes through [run()], which spawns thread 1, and thread 1
    takes its first CAS. *)
Definition run_during_stop : list caller_action :=
  (First <$> stop_during_call) ++
  [OtherCall Run; OtherCtl; OtherCtl; OtherCtl; First (Wk 1 false)].
Lemma Inv_init : Inv AsyncTask.
Proof. split; cbn; intros; try done; naive_solver. Qed.

Lemma lookup_wake (l : list thread) (t : nat) (th : thread) :
  (wake <$> l) !! t = Some th →
  ∃ th0, l !! t = Some th0 ∧ attempts th = attempts th0 ∧
         (pc th = pc th0 ∨ pc th0 = WBlocked ∧ pc th = WWoken).
Proof.
  rewrite list_lookup_fmap. destruct (l !! t) as [th0|]; [|done].
  intros [= <-]. exists th0. unfold wake. destruct (pc th0) eqn:E; cbn; auto.
Qed.

Lemma lookup_wake_of (l : list thread) (t : nat) (th0 : thread) :
  l !! t = Some th0 → (wake <$> l) !! t = Some (wake th0).
Proof. intros H. by rewrite list_lookup_fmap, H. Qed.

Lemma lookup_spawned (l : list thread) (x : thread) (t : nat) (th : thread) :
  (l ++ [x]) !! t = Some th → l !! t = Some th ∨ t = length l ∧ th = x.
Proof.
  intros H. destruct (decide (t < length l)) as [Hlt|Hge].
  - left. by rewrite lookup_app_l in H.
  - right. rewrite lookup_app_r in H by lia.
    destruct (t - length l) as [|n] eqn:E; cbn in H; [|by destruct n].
    split; [lia|congruence].
Qed.

Lemma holder_insert (l : list thread) (t t0 : nat) (p : wpc) (log : list outcome) :
  t < length l →
  (t0 = t → wk_holds p = true) →
  (∃ th, l !! t0 = Some th ∧ wk_holds (pc th) = true) →
  ∃ th, <[t := mkThread p log]> l !! t0 = Some th ∧ wk_holds (pc th) = true.
Proof.
  intros Hlt Hp (th & Hth & Hh). destruct (decide (t0 = t)) as [->|Hne].
  - eexists. rewrite list_lookup_insert_eq by done. split; [done|]. by apply Hp.
  - exists th. by rewrite list_lookup_insert_ne.
Qed.

(** ** Preservation of the invariant *)

Lemma waiting_in_loop (p : wpc) : waiting p = true → in_loop p = true.
Proof. by destruct p. Qed.

Ltac split_lookup :=
  repeat match goal with
  | H : <[_ := _]> _ !! _ = Some _ |- _ =>
      apply list_lookup_insert_Some in H;
      destruct H as [(<- & <- & ?)|(? & H)]
  | H : (wake <$> _) !! _ = Some _ |- _ =>
      apply lookup_wake in H; destruct H as (? & H & ? & [?|[? ?]])
  | H : (_ ++ [_]) !! _ = Some _ |- _ =>
      apply lookup_spawned in H; destruct H as [H|[-> ->]]
  end.

(** Instantiate the per-thread invariant at every thread named in the
    context. *)
Ltac use_threads HT :=
  repeat match goal with
  | H : threads ?s !! ?t = Some ?th |- _ =>
      lazymatch goal with
      | _ : thread_inv s t th |- _ => fail
      | _ => pose proof (HT t th H)
      end
  end;
  repeat match goal with
  | H : thread_inv _ _ _ |- _ => destruct H
  end.

Ltac crush :=
  cbn in *;
  try match goal with
  | H : waiting (pc ?th) = true |- _ => pose proof (waiting_in_loop _ H)
  end;
  repeat match goal with
  | H : ?x = ?x → _ |- _ => specialize (H eq_refl)
  | H : pc ?th = ?p |- _ => is_var th; rewrite H in *; cbn in *; clear H
  | H : attempts ?a = attempts ?b |- _ => rewrite H in *; clear H
  | H : _ :: _ = _ :: _ |- _ => injection H as ? ?; subst
  end;
  try done; try congruence;
  try (intuition (congruence || eauto)).

Lemma cas_cases (alt : bool) (expected cur : State) :
  cur = expected ∧ alt = false ∧ cas_outcome alt expected cur = Swapped ∨
  cur = expected ∧ alt = true ∧ cas_outcome alt expected cur = Spurious ∨
  cur ≠ expected ∧ cas_outcome alt expected cur = Mismatch.
Proof. unfold cas_outcome. destruct (decide _), alt; auto. Qed.

Lemma Inv_worker_step (t : nat) (alt : bool) (s s' : System) :
  Inv s → worker_step t alt s = Some s' → Inv s'.
Proof.
  intros [HT HL HP HG HW HC] Hs.
  unfold worker_step in Hs.
  destruct (threads s !! t) as [[p log]|] eqn:Ht; [|done].
  assert (Hlt : t < length (threads s)) by (by eapply lookup_lt_Some).
  cbn in Hs.
  destruct p; unfold cas_step, compare_exchange_weak in Hs.
  all: try match type of Hs with context [cas_outcome ?a ?e ?c] =>
    destruct (cas_cases a e c) as [(Hst & -> & Hc)|[(Hst & -> & Hc)|(Hst & Hc)]];
    rewrite ?Hc in Hs
  end.
  all: try match type of Hs with context [m_conditionMutex ?x] =>
    destruct (m_conditionMutex x) eqn:Hmx end.
  all: try match type of Hs with context [decide ?P] => destruct (decide P) end.
  all: try match type of Hs with context [if ?a then _ else _] => is_var a; destruct a end.
  all: cbn in Hs; try done.
  all: injection Hs as <-.
  all: split; cbn; rewrite ?length_insert; try done.
  all: try (intros t0 Hm;
            first [ discriminate Hm
                  | injection Hm as <-; eexists;
                    rewrite list_lookup_insert_eq by done; by split
                  | destruct (HW _ Hm) as (thm & Hthm & Hhm);
                    apply holder_insert; [done| |by eauto];
                    intros ->; rewrite Ht in Hthm; injection Hthm as <-;
                    cbn in *; congruence ]).
  all: try (intros t0 th0 Hth0; split; cbn; intros).
  all: split_lookup; use_threads HT; crush.
Qed.

Lemma holder_wake (l : list thread) (t0 : nat) :
  (∃ th, l !! t0 = Some th ∧ wk_holds (pc th) = true) →
  ∃ th, (wake <$> l) !! t0 = Some th ∧ wk_holds (pc th) = true.
Proof.
  intros (th & Hth & Hh). exists (wake th). split; [by apply lookup_wake_of|].
  unfold wake. destruct th as [[] ?]; cbn in *; congruence.
Qed.

Lemma holder_spawn (l : list thread) (x : thread) (t0 : nat) :
  (∃ th, l !! t0 = Some th ∧ wk_holds (pc th) = true) →
  ∃ th, (l ++ [x]) !! t0 = Some th ∧ wk_holds (pc th) = true.
Proof.
  intros (th & Hth & Hh). exists th. split; [|done].
  by apply lookup_app_l_Some.
Qed.

Section Invariant.

Variable bassert_enabled : bool.

Lemma Inv_ctl_step (s s' : System) :
  Inv s → ctl_step bassert_enabled s = Some s' → Inv s'.
Proof.
  intros [HT HL HP HG HW HC] Hs.
  unfold ctl_step, exchange, after_run_exchange, notify_all, spawn in Hs.
  destruct (ctl s) eqn:Hctl; cbn in *; try done.
  all: repeat match type of Hs with
       | context [decide ?P] => destruct (decide P)
       | context [m_conditionMutex ?x] => destruct (m_conditionMutex x) eqn:Hmx
       | context [m_thread ?x] => destruct (m_thread x) as [tj|] eqn:Hmt
       | context [threads ?x !! ?t] => destruct (threads x !! t) as [thj|] eqn:Hj
       | context [match m_state ?x with _ => _ end] => destruct (m_state x) eqn:Hst
       | context [if bassert_enabled then _ else _] => destruct bassert_enabled
       end; cbn in Hs; try done.
  all: injection Hs as <-.
  all: split; cbn; rewrite ?length_app, ?length_fmap; cbn;
       try done; try congruence; auto.
  all: try (intros t0 [= <-]; lia).
  all: try (intros t0 Hm; first
         [ discriminate Hm
         | apply holder_wake; by eauto
         | apply holder_spawn; by eauto
         | by apply HW ]).
  all: intros t0 th0 Hth0; split_lookup.
  all: try (destruct (decide (t0 = tj)) as [->|?];
            [rewrite Hj in Hth0; injection Hth0 as <-|]).
  all: use_threads HT; split; rewrite ?Hctl in *; crush.
Qed.

Lemma Inv_call_step (op : Op) (s s' : System) :
  Inv s → call_step op s = Some s' → Inv s'.
Proof.
  intros [HT HL HP HG HW HC] Hs. unfold call_step in Hs.
  destruct (ctl s) eqn:Hctl; try done. injection Hs as <-.
  destruct op; split; cbn; try done.
  all: try (intros Hm; by apply HC in Hm).
  all: intros t0 th0 Hth0; use_threads HT; split; rewrite ?Hctl in *; crush.
Qed.

Lemma Inv_step (a : action) (s s' : System) :
  Inv s → step bassert_enabled a s = Some s' → Inv s'.
Proof.
  intros HI Hs. unfold step in Hs.
  destruct a; destruct (ctl s); try done;
    eauto using Inv_call_step, Inv_ctl_step, Inv_worker_step.
Qed.

Lemma Inv_exec (l : list action) (s s' : System) :
  Inv s → exec bassert_enabled l s = Some s' → Inv s'.
Proof.
  revert s. induction l as [|a l IH]; intros s HI Hs; cbn in Hs.
  - by injection Hs as <-.
  - destruct (step bassert_enabled a s) as [s1|] eqn:Ha; [|done].
    eauto using Inv_step.
Qed.

Lemma Inv_reachable (s : System) : reachable bassert_enabled s → Inv s.
Proof. intros [l Hl]. eapply Inv_exec; [apply Inv_init|done]. Qed.

Lemma exec_app (l1 l2 : list action) (s s1 : System) :
  exec bassert_enabled l1 s = Some s1 →
  exec bassert_enabled (l1 ++ l2) s = exec bassert_enabled l2 s1.
Proof.
  revert s. induction l1 as [|a l1 IH]; intros s Hs; cbn in *.
  - by injection Hs as <-.
  - destruct (step bassert_enabled a s); [by apply IH|done].
Qed.

Lemma reachable_exec (l : list action) (s s' : System) :
  reachable bassert_enabled s → exec bassert_enabled l s = Some s' →
  reachable bassert_enabled s'.
Proof.
  intros [l0 Hl0] Hl. exists (l0 ++ l). by rewrite (exec_app _ _ _ _ Hl0).
Qed.

Lemma reachable_step (a : action) (s s' : System) :
  reachable bassert_enabled s → step bassert_enabled a s = Some s' →
  reachable bassert_enabled s'.
Proof.
  intros Hr Hs. apply (reachable_exec [a] s); [done|]. cbn. by rewrite Hs.
Qed.

End Invariant.

(** ** Case analysis of one step *)

Ltac worker_cases Hs t Ht :=
  unfold worker_step in Hs;
  destruct (threads _ !! t) as [[? ?]|] eqn:Ht; [|done]; cbn in Hs;
  match type of Ht with
  | _ = Some {| pc := ?p; attempts := _ |} => destruct p
  end;
  unfold cas_step, compare_exchange_weak in Hs;
  repeat match type of Hs with
  | context [cas_outcome ?a ?e ?c] =>
      let Hst := fresh "Hst" in
      let Hc := fresh "Hc" in
      destruct (cas_cases a e c)
        as [(Hst & -> & Hc)|[(Hst & -> & Hc)|(Hst & Hc)]];
      rewrite ?Hc in Hs
  | context [decide ?P] => destruct (decide P)
  | context [m_conditionMutex ?x] => destruct (m_conditionMutex x) eqn:?
  | context [if ?a then _ else _] => is_var a; destruct a
  end; cbn in Hs; try done;
  injection Hs as <-.

Ltac ctl_cases Hs :=
  unfold ctl_step, exchange, notify_all, spawn in Hs;
  destruct (ctl _) eqn:?; cbn in Hs; try done;
  repeat match type of Hs with
  | context [decide ?P] => destruct (decide P)
  | context [m_conditionMutex ?x] => destruct (m_conditionMutex x) eqn:?
  | context [m_thread ?x] => destruct (m_thread x) eqn:?
  | context [threads ?x !! ?t] => destruct (threads x !! t) eqn:?
  end; cbn in Hs; try done;
  injection Hs as <-.

Lemma step_not_aborted (debug : bool) (a : action) (s s' : System) :
  step debug a s = Some s' →
  ctl s ≠ CAborted ∧
  match a with
  | Call op => call_step op s = Some s'
  | Ctl => ctl_step debug s = Some s'
  | Wk t alt => worker_step t alt s = Some s'
  end.
Proof. unfold step. destruct (ctl s), a; done. Qed.

Lemma thread_at_insert (s : System) (t : nat) (p : wpc) (log : list outcome) :
  t < length (threads s) → thread_at (set_thread t p log s) t p.
Proof.
  intros Hlt. eexists. cbn. by rewrite list_lookup_insert_eq.
Qed.

(** The callable is entered by a successful first CAS and by nothing else. *)
Lemma invoked_step (debug : bool) (a : action) (s s' : System) :
  step debug a s = Some s' →
  invoked s' = invoked s ∧ (∀ t, thread_at s' t WCall → thread_at s t WCall) ∨
  ∃ t, a = Wk t false ∧ thread_at s t WRunCas ∧ m_state s = RunRequested ∧
       s' = count_invoked (set_thread t WCall [Swapped] (set_state Running s)).
Proof.
  intros Hs. apply step_not_aborted in Hs as [_ Hs].
  destruct a as [op| |t alt].
  - left. unfold call_step in Hs. destruct (ctl s); try done.
    by injection Hs as <-.
  - left. ctl_cases Hs; cbn; (split; [done|]).
    all: intros t0 (th0 & Hth0 & Hp); cbn in Hth0; split_lookup;
         first [ cbn in *; congruence
               | by eexists
               | eexists; split; [done|congruence] ].
  - worker_cases Hs t Ht.
    1: { right. exists t. split_and!; try done. by eexists. }
    all: left; cbn; (split; [done|]).
    all: intros t0 (th0 & Hth0 & Hp); cbn in Hth0; split_lookup;
         first [ cbn in *; congruence
               | by eexists
               | eexists; split; [done|congruence] ].
Qed.

(** ** The invocation counter *)

Lemma invoked_mono (debug : bool) (a : action) (s s' : System) :
  step debug a s = Some s' → invoked s ≤ invoked s'.
Proof.
  intros Hs.
  destruct (invoked_step _ _ _ _ Hs) as [[-> _]|(t & _ & _ & _ & ->)];
    cbn; lia.
Qed.

Lemma exec_invoked_mono (debug : bool) (l : list action) (s s' : System) :
  exec debug l s = Some s' → invoked s ≤ invoked s'.
Proof.
  revert s. induction l as [|a l IH]; intros s Hs; cbn in Hs.
  - injection Hs as <-. lia.
  - destruct (step debug a s) as [s1|] eqn:Ha; [|done].
    apply invoked_mono in Ha. apply IH in Hs. lia.
Qed.

(** ** A pending re-run survives until the next invocation *)

Lemma rerun_pending_step (debug : bool) (a : action) (s s' : System) (t : nat) :
  Inv s → rerun_pending s t →
  step debug a s = Some s' → a ≠ Call Stop → invoked s' = invoked s →
  rerun_pending s' t.
Proof.
  intros [HT _ _ _ _ _] (Hst & Hctl & p & (th & Hth & <-) & Hl & Hw) Hs Ha Hi.
  apply step_not_aborted in Hs as [_ Hs]. unfold rerun_pending.
  destruct a as [[]| |t' alt]; try done.
  - unfold call_step in Hs. destruct (ctl s); try done. injection Hs as <-.
    cbn. split_and!; eauto. exists (pc th). split_and!; try done. by exists th.
  - unfold ctl_step in Hs.
    destruct Hctl as [Hc|Hc]; rewrite Hc in Hs; [done|].
    rewrite decide_True in Hs by done. injection Hs as <-.
    cbn. split_and!; eauto. exists (pc th). split_and!; try done. by exists th.
  - assert (Hlt : t < length (threads s)) by (by eapply lookup_lt_Some).
    destruct (decide (t' = t)) as [->|Hne].
    + unfold worker_step in Hs. rewrite Hth in Hs.
      destruct th as [p log]. cbn in *.
      destruct p; try done; unfold cas_step, compare_exchange_weak in Hs.
      all: repeat match type of Hs with
           | context [cas_outcome ?a ?e ?c] =>
               destruct (cas_cases a e c)
                 as [(Hst' & -> & Hc)|[(Hst' & -> & Hc)|(Hst' & Hc)]];
               rewrite ?Hc in Hs
           end; cbn in Hs; try congruence.
      all: injection Hs as <-; cbn in *; try lia.
      all: split_and!; try done.
      all: eexists; split; [by apply thread_at_insert|done].
    + worker_cases Hs t' Ht'.
      all: try (pose proof (ti_handle _ _ _ (HT _ _ Ht') eq_refl);
                pose proof (ti_handle _ _ _ (HT _ _ Hth) Hl); congruence).
      all: cbn; split_and!; try done.
      all: exists (pc th); split_and!; try done.
      all: exists th; cbn; by rewrite list_lookup_insert_ne.
Qed.

Lemma rerun_pending_exec (debug : bool) (l : list action) (s s' : System) (t : nat) :
  Inv s → rerun_pending s t →
  exec debug l s = Some s' → Call Stop ∉ l → invoked s' = invoked s →
  rerun_pending s' t.
Proof.
  revert s. induction l as [|a l IH]; intros s HI HP Hs Hl Hi; cbn in Hs.
  - by injection Hs as <-.
  - destruct (step debug a s) as [s1|] eqn:Ha; [|done].
    pose proof (invoked_mono _ _ _ _ Ha).
    pose proof (exec_invoked_mono _ _ _ _ Hs).
    apply not_elem_of_cons in Hl as [Hne Hl].
    apply (IH s1); try done; [by eapply Inv_step| |lia].
    eapply rerun_pending_step; try done. lia.
Qed.

(** While a re-run is pending the worker, left alone, reaches its next
    invocation. *)
Lemma rerun_pending_progress (debug : bool) (n : nat) (s : System) (t : nat) (p : wpc) :
  rerun_pending s t → thread_at s t p → steps_to_run_cas p ≤ n →
  ∃ l s', exec debug l s = Some s' ∧
          invoked s' = S (invoked s) ∧ thread_at s' t WCall.
Proof.
  revert s p. induction n as [|n IH]; intros s p HP Hat Hn.
  - destruct HP as (Hst & Hctl & p' & (th' & Hth' & <-) & Hl & Hw).
    destruct Hat as (th & Hth & <-). rewrite Hth in Hth'. injection Hth' as <-.
    assert (Hlt : t < length (threads s)) by (by eapply lookup_lt_Some).
    destruct th as [p log]; cbn in *.
    exists [Wk t false]. cbn. unfold step, worker_step.
    rewrite Hth. cbn.
    destruct p; try done; cbn in Hn; try lia.
    unfold compare_exchange_weak, cas_outcome. rewrite Hst. cbn.
    destruct Hctl as [-> | ->]; (eexists; split; [done|]);
      (split; [done|by apply thread_at_insert]).
  - pose proof HP as (Hst & Hctl & p' & (th' & Hth' & <-) & Hl & Hw).
    pose proof Hat as (th & Hth & <-). rewrite Hth in Hth'. injection Hth' as <-.
    assert (Hlt : t < length (threads s)) by (by eapply lookup_lt_Some).
    destruct (decide (pc th = WRunCas)) as [Hpc|Hpc].
    { apply (IH s (pc th)); try done. rewrite Hpc. cbn. lia. }
    assert (∃ s1 p1, step debug (Wk t false) s = Some s1 ∧
                     rerun_pending s1 t ∧ thread_at s1 t p1 ∧
                     steps_to_run_cas p1 ≤ n ∧ invoked s1 = invoked s)
      as (s1 & p1 & Hs1 & HP1 & Hat1 & Hn1 & Hi1).
    { unfold step, worker_step. rewrite Hth.
      destruct th as [p log]; cbn in *.
      unfold cas_step, compare_exchange_weak, cas_outcome. rewrite Hst.
      destruct Hctl as [Hc|Hc]; rewrite Hc.
      all: destruct p; try done; cbn in *.
      all: repeat case_decide; try done; cbn.
      all: eexists; eexists; (split; [done|]); unfold rerun_pending; cbn.
      all: split_and!; eauto using thread_at_insert; cbn; try lia.
      all: eexists; split; [by apply thread_at_insert|done]. }
    destruct (IH s1 p1 HP1 Hat1 Hn1) as (l & s' & Hl' & Hi' & Hat').
    exists (Wk t false :: l), s'. cbn. rewrite Hs1. split_and!; try done. lia.
Qed.

(** ** [stop()] returns *)

Lemma wk_holds_in_loop (p : wpc) : wk_holds p = true → in_loop p = true.
Proof. by destruct p. Qed.

(** Outside the notification the mutex is free or held by the thread
    behind [m_thread]. *)
Lemma mutex_free_for (s : System) (t : nat) (th : thread) :
  Inv s → ctl_holds (ctl s) = false →
  threads s !! t = Some th → in_loop (pc th) = true → wk_holds (pc th) = false →
  m_conditionMutex s = None.
Proof.
  intros [HT _ _ _ HW HC] Hctl Hth Hl Hw.
  destruct (m_conditionMutex s) as [[|t']|] eqn:Hmx; [| |done].
  - specialize (HC eq_refl). congruence.
  - destruct (HW _ eq_refl) as (th' & Hth' & Hh').
    pose proof (ti_handle _ _ _ (HT _ _ Hth') (wk_holds_in_loop _ Hh')).
    pose proof (ti_handle _ _ _ (HT _ _ Hth) Hl).
    assert (t' = t) as -> by congruence.
    rewrite Hth in Hth'. injection Hth' as <-. congruence.
Qed.

(** While [stop()] waits in [join], the thread behind [m_thread] can take
    a step towards its end. *)
Lemma drain_step (debug : bool) (s : System) (t : nat) (th : thread) :
  Inv s → ctl s = CStopJoin → m_thread s = Some t →
  threads s !! t = Some th → pc th ≠ WDone →
  ∃ alt s1 th1,
    step debug (Wk t alt) s = Some s1 ∧
    ctl s1 = CStopJoin ∧ m_thread s1 = Some t ∧
    threads s1 !! t = Some th1 ∧
    steps_to_done (pc th1) < steps_to_done (pc th).
Proof.
  intros HI Hc Hm Hth Hpc.
  assert (Hlt : t < length (threads s)) by (by eapply lookup_lt_Some).
  assert (Hst : in_loop (pc th) = true → m_state s = ExitRequested).
  { intros Hl. destruct HI as [HT _ _ HG _ _].
    pose proof (ti_not_exited _ _ _ (HT _ _ Hth) Hl).
    rewrite Hc in HG. by destruct (HG eq_refl). }
  assert (Hmx : in_loop (pc th) = true → wk_holds (pc th) = false →
                m_conditionMutex s = None).
  { intros. eapply mutex_free_for; try done. by rewrite Hc. }
  exists (match pc th with WBlocked => true | _ => false end).
  unfold step, worker_step. rewrite Hc, Hth.
  destruct th as [p log]; cbn in *.
  unfold cas_step, compare_exchange_weak, cas_outcome.
  destruct p; try done; cbn in *.
  all: rewrite ?Hst by done; rewrite ?Hmx by done; cbn.
  all: repeat case_decide; try done.
  all: eexists; eexists; (split; [done|]); cbn.
  all: rewrite list_lookup_insert_eq by done.
  all: split_and!; try done; cbn; lia.
Qed.

Lemma join_returns (debug : bool) (n : nat) (s : System) :
  Inv s → ctl s = CStopJoin →
  (∀ t th, m_thread s = Some t → threads s !! t = Some th →
           steps_to_done (pc th) ≤ n) →
  ∃ l s', exec debug l s = Some s' ∧ ctl s' = COutside.
Proof.
  revert s. induction n as [|n IH]; intros s HI Hc Hn.
  - exists [Ctl]. cbn. unfold step, ctl_step. rewrite Hc.
    destruct (m_thread s) as [t|] eqn:Hm; [|by eexists].
    destruct (lookup_lt_is_Some_2 (threads s) t) as [th Hth];
      [by apply (inv_handle_lt _ HI)|].
    rewrite Hth. specialize (Hn _ _ eq_refl Hth).
    destruct th as [[] ?]; cbn in *; try lia. by eexists.
  - destruct (m_thread s) as [t|] eqn:Hm.
    2: { exists [Ctl]. cbn. unfold step, ctl_step. rewrite Hc, Hm. by eexists. }
    destruct (lookup_lt_is_Some_2 (threads s) t) as [th Hth];
      [by apply (inv_handle_lt _ HI)|].
    destruct (decide (pc th = WDone)) as [Hd|Hd].
    { exists [Ctl]. cbn. unfold step, ctl_step. rewrite Hc, Hm, Hth.
      rewrite decide_True by done. by eexists. }
    destruct (drain_step debug s t th HI Hc Hm Hth Hd)
      as (alt & s1 & th1 & Hs1 & Hc1 & Hm1 & Hth1 & Hlt).
    destruct (IH s1) as (l & s' & Hl & Hc').
    + by eapply Inv_step.
    + done.
    + intros t' th' Ht' Hth'. rewrite Hm1 in Ht'. injection Ht' as <-.
      rewrite Hth1 in Hth'. injection Hth' as <-.
      specialize (Hn _ _ eq_refl Hth). lia.
    + exists (Wk t alt :: l), s'. cbn. by rewrite Hs1.
Qed.

(** A worker that holds the mutex while [stop()] wants it releases it
    within two steps. *)
Lemma lock_acquired (debug : bool) (s : System) :
  Inv s → ctl s = CStopLock →
  ∃ l s', exec debug l s = Some s' ∧ ctl s' = CStopNotify.
Proof.
  intros HI Hc.
  assert (Hfree : ∀ s0, ctl s0 = CStopLock → m_conditionMutex s0 = None →
                        ∃ l s', exec debug l s0 = Some s' ∧ ctl s' = CStopNotify).
  { intros s0 Hc0 Hm0. exists [Ctl]. cbn. unfold step, ctl_step.
    rewrite Hc0, Hm0. by eexists. }
  destruct (m_conditionMutex s) as [[|t]|] eqn:Hmx; [| |by apply Hfree].
  { pose proof (inv_mutex_ctl _ HI Hmx) as Hh. by rewrite Hc in Hh. }
  destruct (inv_mutex_worker _ HI _ Hmx) as (th & Hth & Hh).
  assert (Hlt : t < length (threads s)) by (by eapply lookup_lt_Some).
  assert (Hst : m_state s ≠ Sleeping).
  { pose proof (inv_stopping _ HI) as HG. rewrite Hc in HG.
    destruct (HG eq_refl); congruence. }
  destruct th as [p log]. destruct p; try done; cbn in *.
  - (* WWaitPred: the predicate holds, then the lock leaves scope *)
    destruct (Hfree (set_thread t WIdleExitCas log
                       (set_mutex None (set_thread t WUnlock log s))))
      as (l & s' & Hl & Hc'); [done..|].
    exists (Wk t false :: Wk t false :: l), s'. split; [|done].
    cbn. unfold step, worker_step. rewrite Hc, Hth. cbn.
    rewrite decide_True by done. cbn. rewrite Hc.
    rewrite list_lookup_insert_eq by done. cbn. done.
  - (* WUnlock *)
    destruct (Hfree (set_thread t WIdleExitCas log (set_mutex None s)))
      as (l & s' & Hl & Hc'); [done..|].
    exists (Wk t false :: l), s'. split; [|done].
    cbn. unfold step, worker_step. rewrite Hc, Hth. cbn. done.
Qed.

(** [stop()] does not deadlock: from every reachable state inside
    [stop()] some schedule leads to its return. *)
Lemma stop_returns (debug : bool) (s : System) :
  Inv s → op_of (ctl s) = Some Stop →
  ∃ l s', exec debug l s = Some s' ∧ ctl s' = COutside.
Proof.
  intros HI Hop.
  assert (Hjoin : ∀ l0 s0, exec debug l0 s = Some s0 → ctl s0 = CStopJoin →
                           ∃ l s', exec debug l s = Some s' ∧ ctl s' = COutside).
  { intros l0 s0 Hl0 Hc0.
    assert (HI0 : Inv s0) by (by eapply Inv_exec).
    destruct (m_thread s0) as [t|] eqn:Hm.
    - destruct (lookup_lt_is_Some_2 (threads s0) t) as [th Hth];
        [by apply (inv_handle_lt _ HI0)|].
      destruct (join_returns debug (steps_to_done (pc th)) s0 HI0 Hc0)
        as (l & s' & Hl & Hc').
      + intros t' th' Ht' Hth'. rewrite Hm in Ht'. injection Ht' as <-.
        rewrite Hth in Hth'. by injection Hth' as <-.
      + exists (l0 ++ l), s'. by rewrite (exec_app _ _ _ _ _ Hl0).
    - destruct (join_returns debug 0 s0 HI0 Hc0) as (l & s' & Hl & Hc');
        [intros ? ? Ht'; by rewrite Hm in Ht'|].
      exists (l0 ++ l), s'. by rewrite (exec_app _ _ _ _ _ Hl0). }
  assert (Hnotify : ∀ l0 s0, exec debug l0 s = Some s0 → ctl s0 = CStopNotify →
                           ∃ l s', exec debug l s = Some s' ∧ ctl s' = COutside).
  { intros l0 s0 Hl0 Hc0.
    apply (Hjoin (l0 ++ [Ctl; Ctl])
             (set_ctl CStopJoin (set_mutex None (set_ctl CStopUnlock (notify_all s0)))));
      [|done].
    rewrite (exec_app _ _ _ _ _ Hl0). cbn. unfold step, ctl_step.
    by rewrite Hc0. }
  assert (Hlock : ∀ l0 s0, exec debug l0 s = Some s0 → ctl s0 = CStopLock →
                           ∃ l s', exec debug l s = Some s' ∧ ctl s' = COutside).
  { intros l0 s0 Hl0 Hc0.
    assert (HI0 : Inv s0) by (by eapply Inv_exec).
    destruct (lock_acquired debug s0 HI0 Hc0) as (l & s1 & Hl & Hc1).
    apply (Hnotify (l0 ++ l) s1); [|done].
    by rewrite (exec_app _ _ _ _ _ Hl0). }
  destruct (ctl s) eqn:Hc; try done.
  - (* CStopExchange *)
    destruct (decide (m_state s = Sleeping)) as [Hst|Hst].
    + apply (Hlock [Ctl] (set_ctl CStopLock (set_state ExitRequested s)));
        [|done].
      cbn. unfold step, ctl_step, exchange. rewrite Hc. cbn.
      by rewrite decide_True.
    + apply (Hjoin [Ctl] (set_ctl CStopJoin (set_state ExitRequested s)));
        [|done].
      cbn. unfold step, ctl_step, exchange. rewrite Hc. cbn.
      by rewrite decide_False.
  - by apply (Hlock [] s).
  - by apply (Hnotify [] s).
  - apply (Hjoin [Ctl] (set_ctl CStopJoin (set_mutex None s))); [|done].
    cbn. unfold step, ctl_step. by rewrite Hc.
  - by apply (Hjoin [] s).
Qed.

(** ** After [stop()] has returned *)

Lemma stop_return_stopped (debug : bool) (s s' : System) :
  Inv s → ctl s = CStopJoin → step debug Ctl s = Some s' →
  stopped s' ∧ ctl s' = COutside.
Proof.
  intros HI Hc Hs. pose proof HI as [HT _ _ HG _ _].
  rewrite Hc in HG. specialize (HG eq_refl).
  apply step_not_aborted in Hs as [_ Hs].
  unfold ctl_step in Hs. rewrite Hc in Hs.
  destruct (m_thread s) as [t|] eqn:Hm.
  - destruct (threads s !! t) as [th|] eqn:Hth; [|done].
    destruct (decide (pc th = WDone)) as [Hd|]; [|done].
    injection Hs as <-. unfold stopped, quiet. cbn. split_and!; auto.
    intros t0 th0 Hth0. destruct (in_loop (pc th0)) eqn:Hl; [|done].
    pose proof (ti_handle _ _ _ (HT _ _ Hth0) Hl) as Hm0.
    rewrite Hm in Hm0. injection Hm0 as ->.
    rewrite Hth in Hth0. injection Hth0 as <-. by rewrite Hd in Hl.
  - injection Hs as <-. unfold stopped, quiet. cbn. split_and!; auto.
    intros t0 th0 Hth0. destruct (in_loop (pc th0)) eqn:Hl; [|done].
    pose proof (ti_handle _ _ _ (HT _ _ Hth0) Hl). congruence.
Qed.

Lemma stopped_step (debug : bool) (a : action) (s s' : System) :
  stopped s → step debug a s = Some s' → a ≠ Call Run →
  stopped s' ∧ invoked s' = invoked s ∧ joined s' = joined s.
Proof.
  intros (Hm & Hq & Hst & Hc) Hs Ha.
  apply step_not_aborted in Hs as [_ Hs]. unfold stopped, quiet in *.
  destruct a as [[]| |t alt]; try done.
  - unfold call_step in Hs. destruct (ctl s); try done.
    injection Hs as <-. cbn. split_and!; auto.
  - unfold ctl_step, exchange in Hs.
    destruct Hc as [Hc|[Hc|Hc]]; rewrite Hc in Hs; try done; cbn in Hs.
    + rewrite decide_False in Hs by (destruct Hst; congruence).
      injection Hs as <-. cbn. split_and!; auto.
    + rewrite Hm in Hs. injection Hs as <-. cbn. split_and!; auto.
  - worker_cases Hs t Ht.
    all: try (by specialize (Hq _ _ Ht)).
    cbn. split_and!; auto.
    intros t0 th0 Hth0. split_lookup; [done|eauto].
Qed.

Lemma stopped_exec (debug : bool) (l : list action) (s s' : System) :
  stopped s → exec debug l s = Some s' → Call Run ∉ l →
  stopped s' ∧ invoked s' = invoked s ∧ joined s' = joined s.
Proof.
  revert s. induction l as [|a l IH]; intros s HS Hs Hl; cbn in Hs.
  - by injection Hs as <-.
  - destruct (step debug a s) as [s1|] eqn:Ha; [|done].
    apply not_elem_of_cons in Hl as [Hne Hl].
    destruct (stopped_step _ _ _ _ HS Ha) as (HS1 & Hi1 & Hj1); [done|].
    destruct (IH s1 HS1 Hs Hl) as (HS' & Hi' & Hj').
    split_and!; [done|congruence..].
Qed.

(** ** The wake-up path of the controlling thread, step by step *)

(** Lines 102 and 120: the lock is taken only when the mutex is free. *)
Lemma lock_step_effect (debug : bool) (u : System) (nxt : cpc) :
  ctl u = CRunLock ∧ nxt = CRunNotify ∨ ctl u = CStopLock ∧ nxt = CStopNotify →
  (m_conditionMutex u ≠ None → step debug Ctl u = None) ∧
  (m_conditionMutex u = None →
   step debug Ctl u = Some (set_ctl nxt (set_mutex (Some ByController) u))).
Proof.
  intros [[Hc ->]|[Hc ->]]; unfold step, ctl_step; rewrite Hc; cbn.
  all: destruct (m_conditionMutex u); split; intros; congruence.
Qed.

(** Lines 103 and 121: [notify_all] moves every blocked waiter to its
    wake-up and touches nothing else. *)
Lemma notify_step_effect (debug : bool) (u : System) (nxt : cpc) :
  ctl u = CRunNotify ∧ nxt = CRunUnlock ∨
  ctl u = CStopNotify ∧ nxt = CStopUnlock →
  ∃ u',
    step debug Ctl u = Some u' ∧
    ctl u' = nxt ∧
    notified u' = S (notified u) ∧
    length (threads u') = length (threads u) ∧
    (∀ t th, threads u !! t = Some th →
       threads u' !! t =
         Some (mkThread (if decide (pc th = WBlocked) then WWoken else pc th)
                        (attempts th))) ∧
    m_state u' = m_state u ∧
    m_conditionMutex u' = m_conditionMutex u ∧
    m_thread u' = m_thread u ∧
    invoked u' = invoked u ∧ joined u' = joined u ∧
    detached u' = detached u.
Proof.
  intros [[Hc ->]|[Hc ->]]; unfold step, ctl_step, notify_all; rewrite Hc.
  all: eexists; split; [done|]; cbn; split_and!; try done.
  all: try apply length_fmap.
  all: intros t th Hth; rewrite list_lookup_fmap, Hth; cbn; f_equal.
  all: unfold wake; destruct th as [p log]; cbn.
  all: by destruct p; case_decide.
Qed.

(** Lines 104 and 122: the lock guard leaves scope. *)
Lemma unlock_step_effect (debug : bool) (u : System) (nxt : cpc) :
  ctl u = CRunUnlock ∧ nxt = COutside ∨ ctl u = CStopUnlock ∧ nxt = CStopJoin →
  step debug Ctl u = Some (set_ctl nxt (set_mutex None u)).
Proof.
  intros [[Hc ->]|[Hc ->]]; unfold step, ctl_step; by rewrite Hc.
Qed.

(** ** One caller among two *)

(** While the second caller stays outside, the system with two callers is
    the system with one. *)
Lemma caller_exec_first (debug : bool) (l : list action) (s : System) :
  caller_exec debug (First <$> l) (mkCallers s COutside) =
  (λ s', mkCallers s' COutside) <$> exec debug l s.
Proof.
  revert s. induction l as [|a l IH]; intros s; [done|].
  cbn. unfold caller_step, on_sys. cbn.
  destruct (ctl s) eqn:Hc.
  13: { unfold step. by rewrite Hc. }
  all: destruct (step debug a s) as [s1|]; [apply IH|done].
Qed.

(** * The claims *)

Section Claims.

(** Whether BASSERT is compiled in. *)
Variable debug : bool.

(** ** [run()]: the fast path *)

(** C5: when the test of line 89 reads [RunRequested], [run()] returns at
    once and the step changes nothing but the position of the controlling
    thread: register, mutex, thread handle, threads and all counters are
    those of before. Executed without interruption from outside the member
    functions, the whole call gives back the very same system state. *)
Theorem C5_run_fast_path (s : System) :
  m_state s = RunRequested →
  (ctl s = CRunTest →
     step debug Ctl s = Some (set_ctl COutside s) ∧
     instance (set_ctl COutside s) = instance s ∧
     threads (set_ctl COutside s) = threads s ∧
     invoked (set_ctl COutside s) = invoked s ∧
     notified (set_ctl COutside s) = notified s ∧
     joined (set_ctl COutside s) = joined s ∧
     detached (set_ctl COutside s) = detached s) ∧
  (ctl s = COutside → exec debug [Call Run; Ctl] s = Some s).
Proof.
  intros Hst. split; intros Hc.
  - split; [|done].
    unfold step, ctl_step.
    rewrite Hc. by rewrite decide_True.
  - destruct s; cbn in *. subst. done.
Qed.

(** ** [run()]: the slow path *)

(** C4: the exchange of line 115 leaves [RunRequested] in the register and
    [runSlowCase] continues on the previous value alone. Previous
    [RunRequested] or [Running]: it returns, nothing else changed. Previous
    [Sleeping]: it is at the lock of line 120, where it cannot move while
    the mutex is held; with the mutex free its next three steps are: it
    takes the mutex and changes nothing else; holding it, it calls
    [notify_all] once, after which every thread that was blocked in the
    wait is at its wake-up and every other thread is where it was; it
    releases the mutex, changes nothing else and returns. Previous
    [Exited]: it detaches the handle if it is joinable, spawns one new
    thread at the top of the worker loop, stores its handle and returns. *)
Theorem C4_run_slow_path (s : System) :
  ctl s = CRunExchange →
  ∃ s1,
    step debug Ctl s = Some s1 ∧
    m_state s1 = RunRequested ∧
    s1 = set_ctl (ctl s1) (set_state RunRequested s) ∧
    (m_state s = RunRequested ∨ m_state s = Running → ctl s1 = COutside) ∧
    (m_state s = Sleeping →
       ctl s1 = CRunLock ∧
       (m_conditionMutex s ≠ None → step debug Ctl s1 = None) ∧
       (m_conditionMutex s = None →
          ∃ u1 u2 u3,
            step debug Ctl s1 = Some u1 ∧
            ctl u1 = CRunNotify ∧
            m_conditionMutex u1 = Some ByController ∧
            u1 = set_ctl CRunNotify (set_mutex (Some ByController) s1) ∧
            step debug Ctl u1 = Some u2 ∧
            ctl u2 = CRunUnlock ∧
            m_conditionMutex u2 = Some ByController ∧
            notified u2 = S (notified s) ∧
            length (threads u2) = length (threads s) ∧
            (∀ t th, threads s !! t = Some th →
               threads u2 !! t =
                 Some (mkThread
                         (if decide (pc th = WBlocked) then WWoken else pc th)
                         (attempts th))) ∧
            m_state u2 = RunRequested ∧
            m_thread u2 = m_thread s ∧
            invoked u2 = invoked s ∧ joined u2 = joined s ∧
            detached u2 = detached s ∧
            step debug Ctl u2 = Some u3 ∧
            ctl u3 = COutside ∧
            m_conditionMutex u3 = None ∧
            u3 = set_ctl COutside (set_mutex None u2))) ∧
    (m_state s = Exited →
       ctl s1 = CRunSpawn ∧
       ∃ s2,
         step debug Ctl s1 = Some s2 ∧
         ctl s2 = COutside ∧
         m_state s2 = RunRequested ∧
         threads s2 = threads s ++ [mkThread WRunCas []] ∧
         m_thread s2 = Some (length (threads s)) ∧
         detached s2 =
           match m_thread s with
           | Some _ => S (detached s)
           | None => detached s
           end ∧
         m_conditionMutex s2 = m_conditionMutex s ∧
         invoked s2 = invoked s ∧ notified s2 = notified s ∧
         joined s2 = joined s).
Proof.
  intros Hc.
  assert (Hstep : step debug Ctl s =
                  Some (set_ctl (after_run_exchange debug (m_state s))
                          (set_state RunRequested s))).
  { unfold step, ctl_step. by rewrite Hc. }
  eexists. split; [exact Hstep|]. cbn. split_and!; try done.
  - intros [-> | ->]; done.
  - intros Hsl. rewrite Hsl. cbn. split; [done|].
    set (s1 := set_ctl CRunLock (set_state RunRequested s)).
    destruct (lock_step_effect debug s1 CRunNotify) as [Hheld Hfree];
      [by left|].
    split; [exact Hheld|]. intros Hmx.
    specialize (Hfree Hmx).
    set (u1 := set_ctl CRunNotify (set_mutex (Some ByController) s1)) in *.
    destruct (notify_step_effect debug u1 CRunUnlock)
      as (u2 & Hu2 & Hc2 & Hn2 & Hl2 & Hth2 & Hst2 & Hm2 & Hh2 & Hi2 & Hj2
          & Hd2); [by left|].
    exists u1, u2, (set_ctl COutside (set_mutex None u2)).
    split_and!; try done.
    by apply unlock_step_effect; left.
  - intros ->. split; [done|]. cbn. unfold step, ctl_step. cbn.
    eexists. split; [done|].
    unfold spawn. cbn. destruct (m_thread s); cbn; split_and!; done.
Qed.

(** ** Who stores what *)

(** C10: a step of a worker thread leaves the register unchanged or stores
    [Running], [Sleeping] or [Exited]; a step of the controlling thread
    inside [run()] leaves it unchanged or stores [RunRequested]; inside
    [stop()] it leaves it unchanged or stores [ExitRequested]; entering a
    member function stores nothing. Hence a step that makes the register
    read [RunRequested] or [ExitRequested] is a step of the controlling
    thread, and one that makes it read [Running], [Sleeping] or [Exited]
    is a step of a worker thread. *)
Theorem C10_writer_discipline (a : action) (s s' : System) :
  step debug a s = Some s' →
  match a with
  | Wk _ _ =>
      m_state s' = m_state s ∨
      m_state s' = Running ∨ m_state s' = Sleeping ∨ m_state s' = Exited
  | Ctl =>
      m_state s' = m_state s ∨
      op_of (ctl s) = Some Run ∧ m_state s' = RunRequested ∨
      op_of (ctl s) = Some Stop ∧ m_state s' = ExitRequested
  | Call _ => m_state s' = m_state s
  end ∧
  (m_state s' ≠ m_state s →
     (m_state s' = RunRequested ∨ m_state s' = ExitRequested → a = Ctl) ∧
     (m_state s' = Running ∨ m_state s' = Sleeping ∨ m_state s' = Exited →
        ∃ t alt, a = Wk t alt)).
Proof.
  intros Hs.
  assert (Hmain : match a with
    | Wk _ _ =>
        m_state s' = m_state s ∨
        m_state s' = Running ∨ m_state s' = Sleeping ∨ m_state s' = Exited
    | Ctl =>
        m_state s' = m_state s ∨
        op_of (ctl s) = Some Run ∧ m_state s' = RunRequested ∨
        op_of (ctl s) = Some Stop ∧ m_state s' = ExitRequested
    | Call _ => m_state s' = m_state s
    end).
  { unfold step in Hs. destruct a as [op| |t alt].
    - unfold call_step in Hs. destruct (ctl s); try done.
      by injection Hs as <-.
    - unfold ctl_step, exchange, notify_all, spawn in Hs.
      destruct (ctl s) eqn:Hc; cbn in Hs; try done.
      all: repeat match type of Hs with
           | context [decide ?P] => destruct (decide P)
           | context [m_conditionMutex ?x] => destruct (m_conditionMutex x)
           | context [m_thread ?x] => destruct (m_thread x)
           | context [threads ?x !! ?t] => destruct (threads x !! t)
           end; cbn in Hs; try done.
      all: injection Hs as <-; cbn; auto.
    - unfold worker_step in Hs.
      destruct (ctl s); try done.
      all: destruct (threads s !! t) as [[p log]|]; [|done]; cbn in Hs.
      all: destruct p; unfold cas_step, compare_exchange_weak in Hs.
      all: repeat match type of Hs with
           | context [cas_outcome ?a ?e ?c] => destruct (cas_outcome a e c)
           | context [decide ?P] => destruct (decide P)
           | context [m_conditionMutex ?x] => destruct (m_conditionMutex x)
           end; cbn in Hs; try done.
      all: injection Hs as <-; cbn; auto. }
  split; [done|]. intros Hne.
  destruct a as [op| |t alt]; split; intros Hv; try done; eauto.
  - destruct Hmain as [?|[[_ ?]|[_ ?]]]; destruct Hv as [?|[?|?]]; congruence.
  - destruct Hmain as [?|[?|[?|?]]]; destruct Hv; congruence.
Qed.

(** ** Mutual exclusion of the callable *)

(** C1, as amended: when [run()] and [stop()] are called one at a time (no
    call is entered before the previous one has returned), then in every
    state reachable by interleaving these calls with the worker threads at
    most one thread is inside the work callable. An invocation begins by
    one step only: a worker thread at the first CAS finds [RunRequested],
    the CAS succeeds and stores [Running], and at that moment no thread is
    inside the callable, so the previous invocation has returned. A thread
    is never inside the callable without that step having been counted. *)
Theorem C1_callable_never_concurrent (s : System) :
  reachable debug s →
  (∀ t1 t2, thread_at s t1 WCall → thread_at s t2 WCall → t1 = t2) ∧
  (∀ a s', step debug a s = Some s' → invoked s' ≠ invoked s →
     ∃ t, a = Wk t false ∧
          thread_at s t WRunCas ∧ m_state s = RunRequested ∧
          m_state s' = Running ∧ thread_at s' t WCall ∧
          invoked s' = S (invoked s) ∧
          ∀ t', ¬ thread_at s t' WCall) ∧
  (∀ a s' t, step debug a s = Some s' →
     thread_at s' t WCall → ¬ thread_at s t WCall →
     invoked s' = S (invoked s)).
Proof.
  intros Hr. pose proof (Inv_reachable _ _ Hr) as [HT _ _ _ _ _].
  assert (Hone : ∀ t1 t2 p1 p2,
            thread_at s t1 p1 → thread_at s t2 p2 →
            in_loop p1 = true → in_loop p2 = true → t1 = t2).
  { intros t1 t2 p1 p2 (th1 & H1 & <-) (th2 & H2 & <-) Hl1 Hl2.
    pose proof (ti_handle _ _ _ (HT _ _ H1) Hl1).
    pose proof (ti_handle _ _ _ (HT _ _ H2) Hl2). congruence. }
  split_and!.
  - intros t1 t2 H1 H2. by eapply Hone.
  - intros a s' Hs Hne.
    destruct (invoked_step _ _ _ _ Hs) as [[? _]|(t & -> & Hat & Hst & ->)];
      [done|].
    exists t. split_and!; try done.
    + destruct Hat as (th & Hth & _). apply thread_at_insert.
      by eapply lookup_lt_Some.
    + intros t' Hc. by pose proof (Hone _ _ _ _ Hat Hc eq_refl eq_refl) as ->;
        destruct Hat as (? & ? & ?), Hc as (? & ? & ?); congruence.
  - intros a s' t Hs Hin Hout.
    destruct (invoked_step _ _ _ _ Hs) as [[_ Hkeep]|(t0 & -> & _ & _ & ->)];
      [|done].
    by apply Hkeep in Hin.
Qed.

(** ** The worker loop *)



(** ** A run request during an invocation *)

(** C7, as amended: let [runSlowCase] perform its exchange while the
    register reads [Running] and thread [t] is inside the callable. As
    long as no [stop()] is called and no further invocation has begun, the
    register reads [RunRequested] and [t] stays in the loop outside the
    idle wait: its second CAS fails and leads to the third, with the
    register unchanged, so it stores neither [Sleeping] nor [Exited]; and
    from every such state thread [t] can reach its next invocation. *)
Theorem C7_rerun_after_run_during_call
    (s0 s' : System) (t : nat) (l : list action) :
  reachable debug s0 →
  ctl s0 = CRunExchange → m_state s0 = Running → thread_at s0 t WCall →
  exec debug (Ctl :: l) s0 = Some s' →
  Call Stop ∉ l →
  invoked s' = invoked s0 →
  m_state s' = RunRequested ∧
  (∃ p, thread_at s' t p ∧ in_loop p = true ∧ waiting p = false) ∧
  (∀ alt s'', thread_at s' t WSleepCas →
     step debug (Wk t alt) s' = Some s'' →
     thread_at s'' t WIdleExitCas ∧ m_state s'' = RunRequested) ∧
  (∃ l' s'', exec debug l' s' = Some s'' ∧
             invoked s'' = S (invoked s0) ∧ thread_at s'' t WCall).
Proof.
  intros Hr Hc Hst Hat Hs Hl Hi. cbn in Hs.
  destruct (step debug Ctl s0) as [s1|] eqn:H1; [|done].
  assert (HI1 : Inv s1) by (eapply Inv_step; [by eapply Inv_reachable|done]).
  assert (rerun_pending s1 t ∧ invoked s1 = invoked s0) as [HP1 Hi1].
  { unfold step, ctl_step, exchange in H1. rewrite Hc, Hst in H1. cbn in H1.
    injection H1 as <-. split; [|done]. unfold rerun_pending. cbn.
    split_and!; eauto. }
  assert (HP : rerun_pending s' t).
  { eapply rerun_pending_exec; try done. congruence. }
  assert (HI : Inv s') by (by eapply Inv_exec).
  pose proof HP as (Hst' & Hctl' & p & Hat' & Hloop & Hwait).
  split_and!; eauto.
  - intros alt s'' (th & Hth & Hpc) Hs''.
    assert (Hlt : t < length (threads s')) by (by eapply lookup_lt_Some).
    apply step_not_aborted in Hs'' as [_ Hs''].
    unfold worker_step in Hs''. rewrite Hth, Hpc in Hs''.
    unfold cas_step, compare_exchange_weak, cas_outcome in Hs''.
    rewrite Hst' in Hs''. cbn in Hs''. injection Hs'' as <-.
    split; [by apply thread_at_insert|done].
  - destruct (rerun_pending_progress debug _ s' t p HP Hat' (le_n _))
      as (l' & s'' & Hl' & Hi' & Hat'').
    exists l', s''. split_and!; try done. congruence.
Qed.


(** ** [stop()] twice *)

(** C6: let a call of [stop()] return (the step from line 109 to outside
    the member function). Then in every continuation in which [run()] is
    not called - in particular during and after a second [stop()] - the
    callable is not invoked, [join] is not called again and the thread
    handle stays not joinable, and the controlling thread is never blocked:
    whenever it is inside [stop()] its next step is enabled. Executed
    without interruption the second [stop()] returns after its exchange
    and the skipped join. Moreover no call of [stop()] deadlocks: from
    every reachable state inside [stop()] some schedule leads to its
    return. *)
Theorem C6_stop_idempotent (s s1 s2 : System) (l : list action) :
  reachable debug s → ctl s = CStopJoin → step debug Ctl s = Some s1 →
  exec debug l s1 = Some s2 → Call Run ∉ l →
  ctl s1 = COutside ∧
  invoked s2 = invoked s1 ∧
  joined s2 = joined s1 ∧
  m_thread s2 = None ∧
  (ctl s2 = COutside ∨ ∃ s3, step debug Ctl s2 = Some s3) ∧
  (∃ s3, exec debug [Call Stop; Ctl; Ctl] s1 = Some s3 ∧ ctl s3 = COutside) ∧
  (∀ s0, reachable debug s0 → op_of (ctl s0) = Some Stop →
         ∃ l0 s0', exec debug l0 s0 = Some s0' ∧ ctl s0' = COutside).
Proof.
  intros Hr Hc Hs Hl Hrun.
  pose proof (Inv_reachable _ _ Hr) as HI.
  destruct (stop_return_stopped _ _ _ HI Hc Hs) as [HS1 Hc1].
  destruct (stopped_exec _ _ _ _ HS1 Hl Hrun) as ((Hm & Hq & Hst & Hc2) & Hi & Hj).
  split_and!; try done.
  - destruct Hc2 as [Hc2|[Hc2|Hc2]]; [by left|right..].
    + unfold step, ctl_step, exchange. rewrite Hc2. cbn. by eexists.
    + unfold step, ctl_step. rewrite Hc2, Hm. by eexists.
  - destruct HS1 as (Hm1 & _ & Hst1 & _).
    cbn. unfold step, call_step, ctl_step, exchange. rewrite Hc1. cbn.
    rewrite decide_False by (destruct Hst1; congruence). cbn.
    rewrite Hm1. by eexists.
  - intros s0 Hr0 Hop. eapply stop_returns; [by eapply Inv_reachable|done].
Qed.

End Claims.


(** ** The constructor *)

(** C9: construction yields an instance whose register reads [Exited],
    with no joinable thread handle, no thread at all and the mutex free;
    the work callable has not been invoked and the controlling thread is
    outside every member function. *)
Theorem C9_construct_exited :
  m_state AsyncTask = Exited ∧
  m_thread AsyncTask = None ∧
  threads AsyncTask = [] ∧
  m_conditionMutex AsyncTask = None ∧
  invoked AsyncTask = 0 ∧
  ctl AsyncTask = COutside.
Proof. by repeat split. Qed.


(** ** [stop()] when no worker is in the loop *)

(** C3 (the code departs from it): [stop()] called on a freshly constructed
    instance runs to its return without blocking, and the register then
    reads [ExitRequested], not [Exited]: the exchange of line 98 stored
    [ExitRequested] and no worker thread exists that would replace it. The
    same happens when the worker has gone idle, timed out and left the loop
    on its own before [stop()] is called: the register read [Exited], the
    join returns at once, and the register is left at [ExitRequested]. *)
Theorem C3_stop_leaves_exit_requested (debug : bool) :
  (exec debug stop_only AsyncTask = Some (after debug stop_only) ∧
   ctl (after debug stop_only) = COutside ∧
   m_thread (after debug stop_only) = None ∧
   threads (after debug stop_only) = [] ∧
   m_state (after debug stop_only) = ExitRequested) ∧
  (exec debug idle_exit AsyncTask = Some (after debug idle_exit) ∧
   m_state (after debug idle_exit) = Exited ∧
   threads (after debug idle_exit) !! 0 =
     Some (mkThread WDone [Swapped; Swapped; Swapped]) ∧
   exec debug stop_only (after debug idle_exit) =
     Some (after debug (idle_exit ++ stop_only)) ∧
   ctl (after debug (idle_exit ++ stop_only)) = COutside ∧
   joined (after debug (idle_exit ++ stop_only)) = 1 ∧
   m_state (after debug (idle_exit ++ stop_only)) = ExitRequested).
Proof. vm_compute. by split_and!. Qed.

(** ** The assertion of [runSlowCase] *)

(** C8 (the code departs from it): the sequential calls construct,
    [stop()], [run()] bring [runSlowCase] to its exchange while the
    register reads [ExitRequested]; that previous value is none of
    [RunRequested], [Running], [Sleeping] and is not [Exited], and the
    next step of [run()] fails [BASSERT(oldState == Exited)] where
    assertions are compiled in. So do the calls [run()], [stop()],
    [run()] when the worker has left the loop on its own before
    [stop()]. *)
Theorem C8_assertion_fails_after_stop :
  let s := after true (stop_only ++ [Call Run; Ctl]) in
  let s' := after true (idle_exit ++ stop_only ++ [Call Run; Ctl]) in
  (∀ debug, exec debug (stop_only ++ [Call Run; Ctl]) AsyncTask = Some s) ∧
  ctl s = CRunExchange ∧
  fst (exchange RunRequested (m_state s)) = ExitRequested ∧
  step true Ctl s = Some (set_ctl CAborted (set_state RunRequested s)) ∧
  (∀ debug,
     exec debug (idle_exit ++ stop_only ++ [Call Run; Ctl]) AsyncTask = Some s') ∧
  ctl s' = CRunExchange ∧
  fst (exchange RunRequested (m_state s')) = ExitRequested ∧
  step true Ctl s' = Some (set_ctl CAborted (set_state RunRequested s')).
Proof. vm_compute. by split_and!. Qed.

(** ** Where the statements of the specification fail *)

(** C1, as stated, fails when two calls overlap: thread 0 is inside the
    callable when [stop()] stores [ExitRequested] and goes on to the join;
    before it has joined, a second caller enters [run()], finds another
    value than [RunRequested] at the test of line 88 and receives
    [ExitRequested] from the exchange of line 115; with [BASSERT] compiled
    out it detaches the handle and spawns thread 1, whose first CAS finds
    [RunRequested] and succeeds. Thread 0 has not returned from the
    callable: threads 0 and 1 are inside it together. Up to the second
    call the schedule is one of the system with a single caller. *)
Lemma C1_overlapping_calls_two_invocations :
  let s := after false stop_during_call in
  caller_exec false (First <$> stop_during_call) (mkCallers AsyncTask COutside)
    = Some (mkCallers s COutside) ∧
  ctl s = CStopJoin ∧ m_state s = ExitRequested ∧ thread_at s 0 WCall ∧
  ∃ c,
    caller_exec false run_during_stop (mkCallers AsyncTask COutside) = Some c ∧
    ctl (sys c) = CStopJoin ∧ other c = COutside ∧
    thread_at (sys c) 0 WCall ∧ thread_at (sys c) 1 WCall ∧
    invoked (sys c) = 2 ∧ detached (sys c) = 1 ∧
    ¬ (∀ t1 t2,
         thread_at (sys c) t1 WCall → thread_at (sys c) t2 WCall → t1 = t2).
Proof.
  vm_compute. split_and!; try done.
  - by eexists.
  - eexists. split; [done|]. cbn.
    assert (H0 : ∃ th : thread,
               [mkThread WCall [Swapped]; mkThread WCall [Swapped]] !! 0
                 = Some th ∧ pc th = WCall) by (by eexists).
    assert (H1 : ∃ th : thread,
               [mkThread WCall [Swapped]; mkThread WCall [Swapped]] !! 1
                 = Some th ∧ pc th = WCall) by (by eexists).
    split_and!; try done.
    intros Hone. by pose proof (Hone 0 1 H0 H1).
Qed.




(** C7, as stated, fails: thread 0 is inside the callable and a second
    [run()] exchanges [Running] for [RunRequested]; [stop()] then stores
    [ExitRequested]. When the callable returns, the second and third CAS
    of thread 0 fail and the fourth succeeds: the register reads [Exited]
    and the thread returns, with no invocation after the first. *)
Lemma C7_stop_overrides_rerun :
  let s0 := after false run_during_call in
  exec false run_during_call AsyncTask = Some s0 ∧
  ctl s0 = CRunExchange ∧ m_state s0 = Running ∧ thread_at s0 0 WCall ∧
  ∃ s',
    exec false [Ctl; Call Stop; Ctl;
                Wk 0 false; Wk 0 false; Wk 0 false; Wk 0 false] s0 = Some s' ∧
    invoked s' = invoked s0 ∧
    m_state s' = Exited ∧
    thread_at s' 0 WReturn.
Proof.
  vm_compute. split_and!; try done.
  - by eexists.
  - eexists. split_and!; try done. by eexists.
Qed.

(** ** Instances of the theorems on concrete schedules *)

Lemma reachable_after (l : list action) :
  exec false l AsyncTask = Some (after false l) →
  reachable false (after false l).
Proof. intros H. by exists l. Defined.

Lemma C1_witness :
  reachable false (after false in_call) ∧
  ∀ t1 t2,
    thread_at (after false in_call) t1 WCall →
    thread_at (after false in_call) t2 WCall → t1 = t2.
Proof.
  assert (Hr : reachable false (after false in_call)).
  { apply reachable_after. vm_compute. reflexivity. }
  split; [exact Hr|].
  exact (proj1 (C1_callable_never_concurrent false _ Hr)).
Defined.


Lemma C4_witness :
  let s := after false (asleep ++ [Call Run; Ctl]) in
  ctl s = CRunExchange ∧ m_state s = Sleeping ∧
  m_conditionMutex s = None ∧ thread_at s 0 WBlocked ∧
  ∃ s1 u1 u2 u3,
    step false Ctl s = Some s1 ∧ m_state s1 = RunRequested ∧
    ctl s1 = CRunLock ∧
    step false Ctl s1 = Some u1 ∧ m_conditionMutex u1 = Some ByController ∧
    step false Ctl u1 = Some u2 ∧ thread_at u2 0 WWoken ∧
    notified u2 = S (notified s) ∧
    step false Ctl u2 = Some u3 ∧ m_conditionMutex u3 = None ∧
    ctl u3 = COutside.
Proof.
  assert (Hc : ctl (after false (asleep ++ [Call Run; Ctl])) = CRunExchange).
  { vm_compute. reflexivity. }
  assert (Hsl : m_state (after false (asleep ++ [Call Run; Ctl])) = Sleeping).
  { vm_compute. reflexivity. }
  assert (Hmx : m_conditionMutex (after false (asleep ++ [Call Run; Ctl]))
                = None).
  { vm_compute. reflexivity. }
  assert (Hth : threads (after false (asleep ++ [Call Run; Ctl])) !! 0
                = Some (mkThread WBlocked [Swapped; Swapped])).
  { vm_compute. reflexivity. }
  split; [exact Hc|]. split; [exact Hsl|]. split; [exact Hmx|].
  split; [eexists; split; [exact Hth|reflexivity]|].
  destruct (C4_run_slow_path false _ Hc)
    as (s1 & Hs1 & Hst & _ & _ & Hsleeping & _).
  destruct (Hsleeping Hsl) as (Hc1 & _ & Hfree).
  destruct (Hfree Hmx)
    as (u1 & u2 & u3 & Hu1 & _ & Hm1 & _ & Hu2 & _ & _ & Hn2 & _ & Hw2 & _
        & _ & _ & _ & _ & Hu3 & Hc3 & Hm3 & _).
  exists s1, u1, u2, u3.
  split; [exact Hs1|]. split; [exact Hst|]. split; [exact Hc1|].
  split; [exact Hu1|]. split; [exact Hm1|]. split; [exact Hu2|].
  split; [eexists; split; [exact (Hw2 0 _ Hth)|reflexivity]|].
  split; [exact Hn2|]. split; [exact Hu3|]. split; [exact Hm3|exact Hc3].
Defined.

Lemma C5_witness :
  let s := after false first_run in
  m_state s = RunRequested ∧ ctl s = COutside ∧
  exec false [Call Run; Ctl] s = Some s.
Proof.
  assert (Hst : m_state (after false first_run) = RunRequested).
  { vm_compute. reflexivity. }
  assert (Hc : ctl (after false first_run) = COutside).
  { vm_compute. reflexivity. }
  split; [exact Hst|]. split; [exact Hc|].
  exact (proj2 (C5_run_fast_path false _ Hst) Hc).
Defined.

Lemma C6_witness :
  let s := after false stop_at_join in
  let s1 := after false (stop_at_join ++ [Ctl]) in
  let s2 := after false (stop_at_join ++ [Ctl; Call Stop; Ctl; Ctl]) in
  reachable false s ∧ ctl s = CStopJoin ∧
  step false Ctl s = Some s1 ∧
  exec false [Call Stop; Ctl; Ctl] s1 = Some s2 ∧
  (Call Run ∉ [Call Stop; Ctl; Ctl]) ∧
  invoked s2 = invoked s1 ∧ joined s2 = joined s1.
Proof.
  assert (Hr : reachable false (after false stop_at_join)).
  { apply reachable_after. vm_compute. reflexivity. }
  assert (Hc : ctl (after false stop_at_join) = CStopJoin).
  { vm_compute. reflexivity. }
  assert (Hs : step false Ctl (after false stop_at_join) =
               Some (after false (stop_at_join ++ [Ctl]))).
  { vm_compute. reflexivity. }
  assert (Hl : exec false [Call Stop; Ctl; Ctl]
                 (after false (stop_at_join ++ [Ctl])) =
               Some (after false (stop_at_join ++ [Ctl; Call Stop; Ctl; Ctl]))).
  { vm_compute. reflexivity. }
  assert (Hn : Call Run ∉ [Call Stop; Ctl; Ctl]).
  { apply (bool_decide_unpack _). vm_compute. exact I. }
  split; [exact Hr|]. split; [exact Hc|]. split; [exact Hs|].
  split; [exact Hl|]. split; [exact Hn|].
  destruct (C6_stop_idempotent false _ _ _ _ Hr Hc Hs Hl Hn)
    as (_ & Hi & Hj & _).
  split; [exact Hi|exact Hj].
Defined.

Lemma C7_witness :
  let s0 := after false run_during_call in
  let l := [Wk 0 false; Wk 0 false] in
  let s' := after false (run_during_call ++ Ctl :: l) in
  reachable false s0 ∧ ctl s0 = CRunExchange ∧ m_state s0 = Running ∧
  thread_at s0 0 WCall ∧
  exec false (Ctl :: l) s0 = Some s' ∧
  (Call Stop ∉ l) ∧
  invoked s' = invoked s0 ∧
  m_state s' = RunRequested.
Proof.
  assert (Hr : reachable false (after false run_during_call)).
  { apply reachable_after. vm_compute. reflexivity. }
  assert (Hc : ctl (after false run_during_call) = CRunExchange).
  { vm_compute. reflexivity. }
  assert (Hst : m_state (after false run_during_call) = Running).
  { vm_compute. reflexivity. }
  assert (Hat : thread_at (after false run_during_call) 0 WCall).
  { exists (mkThread WCall [Swapped]). vm_compute. split; reflexivity. }
  assert (Hl : exec false [Ctl; Wk 0 false; Wk 0 false]
                 (after false run_during_call) =
               Some (after false
                       (run_during_call ++ [Ctl; Wk 0 false; Wk 0 false]))).
  { vm_compute. reflexivity. }
  assert (Hn : Call Stop ∉ [Wk 0 false; Wk 0 false]).
  { apply (bool_decide_unpack _). vm_compute. exact I. }
  assert (Hi : invoked (after false
                          (run_during_call ++ [Ctl; Wk 0 false; Wk 0 false])) =
               invoked (after false run_during_call)).
  { vm_compute. reflexivity. }
  split; [exact Hr|]. split; [exact Hc|]. split; [exact Hst|].
  split; [exact Hat|]. split; [exact Hl|]. split; [exact Hn|].
  split; [exact Hi|].
  exact (proj1 (C7_rerun_after_run_during_call false _ _ 0 _
                  Hr Hc Hst Hat Hl Hn Hi)).
Defined.

Lemma C10_witness :
  step false (Wk 0 false) (after false first_run) = Some (after false in_call) ∧
  (m_state (after false in_call) = m_state (after false first_run) ∨
   m_state (after false in_call) = Running ∨
   m_state (after false in_call) = Sleeping ∨
   m_state (after false in_call) = Exited).
Proof.
  assert (Hs : step false (Wk 0 false) (after false first_run) =
               Some (after false in_call)).
  { vm_compute. reflexivity. }
  split; [exact Hs|].
  exact (proj1 (C10_writer_discipline false _ _ _ Hs)).
Defined.

(** * Further properties of the task *)

Section Further.

(** Whether BASSERT is compiled in. *)
Variable debug : bool.

(** ** One worker at a time *)

(** X1: when [run()] and [stop()] are called one at a time (no call is
    entered before the previous one has returned), then in every reachable
    state at most one thread of the instance is in the worker loop, and it
    is the thread behind [m_thread]. The thread table grows by the spawn of
    line 128 only, by one thread, and at that moment no thread is in the
    loop. *)
Theorem X1_one_thread_in_loop (s : System) :
  reachable debug s →
  (∀ t1 t2 p1 p2,
     thread_at s t1 p1 → thread_at s t2 p2 →
     in_loop p1 = true → in_loop p2 = true →
     t1 = t2 ∧ m_thread s = Some t1) ∧
  (∀ a s', step debug a s = Some s' →
     length (threads s') ≠ length (threads s) →
     a = Ctl ∧ ctl s = CRunSpawn ∧ quiet s ∧
     threads s' = threads s ++ [mkThread WRunCas []]).
Proof.
  intros Hr. pose proof (Inv_reachable _ _ Hr) as [HT _ _ _ _ _]. split.
  - intros t1 t2 p1 p2 (th1 & H1 & <-) (th2 & H2 & <-) Hl1 Hl2.
    pose proof (ti_handle _ _ _ (HT _ _ H1) Hl1).
    pose proof (ti_handle _ _ _ (HT _ _ H2) Hl2).
    split; congruence.
  - intros a s' Hs Hlen. apply step_not_aborted in Hs as [_ Hs].
    destruct a as [op| |t alt].
    + unfold call_step in Hs. destruct (ctl s); try done.
      by injection Hs as <-.
    + ctl_cases Hs; cbn in Hlen; rewrite ?length_fmap in Hlen; try done.
      all: split_and!; try done.
      all: intros t th Hth; destruct (in_loop (pc th)) eqn:Hl; [|done].
      all: by pose proof (ti_not_spawning _ _ _ (HT _ _ Hth) Hl).
    + worker_cases Hs t Ht; cbn in Hlen; rewrite ?length_insert in Hlen; done.
Qed.

(** ** [stop()] waits for the worker *)



(** ** Starting again *)

(** X6: [run()] on an instance whose register reads [Exited] - after
    construction, after the worker left on its own, after a [stop()] that
    joined it - detaches a handle that is still joinable, spawns a thread
    with a fresh id and stores its handle; the first CAS of that thread
    succeeds and the callable is invoked once more. *)
Theorem X6_run_respawns (s : System) :
  ctl s = COutside → m_state s = Exited →
  ∃ s',
    exec debug [Call Run; Ctl; Ctl; Ctl; Wk (length (threads s)) false] s
      = Some s' ∧
    invoked s' = S (invoked s) ∧
    m_state s' = Running ∧
    threads s' = threads s ++ [mkThread WCall [Swapped]] ∧
    m_thread s' = Some (length (threads s)) ∧
    detached s' =
      match m_thread s with
      | Some _ => S (detached s)
      | None => detached s
      end ∧
    joined s' = joined s ∧
    ctl s' = COutside.
Proof.
  intros Hc Hst.
  assert (H1 : exec debug [Call Run; Ctl; Ctl] s =
               Some (set_ctl CRunSpawn (set_state RunRequested s))).
  { cbn. unfold step, call_step, ctl_step, exchange. rewrite Hc. cbn.
    rewrite decide_False by (rewrite Hst; done). cbn. by rewrite Hst. }
  change [Call Run; Ctl; Ctl; Ctl; Wk (length (threads s)) false]
    with ([Call Run; Ctl; Ctl] ++ [Ctl; Wk (length (threads s)) false]).
  rewrite (exec_app debug [Call Run; Ctl; Ctl] _ _ _ H1).
  cbn [exec]. unfold step at 1. cbn [ctl set_ctl]. unfold ctl_step.
  cbn [ctl set_ctl]. unfold step, worker_step, spawn. cbn.
  destruct (m_thread s) as [h|] eqn:Hm; cbn.
  all: rewrite lookup_app_r by (cbn; lia).
  all: replace (length (threads s) - length (threads s)) with 0 by lia; cbn.
  all: eexists; split; [done|]; cbn.
  all: rewrite insert_app_r_alt by lia.
  all: replace (length (threads s) - length (threads s)) with 0 by lia; cbn.
  all: by split_and!.
Qed.

(** ** The wait mutex *)

Lemma mutex_held_step (a : action) (s s' : System) :
  (∀ t th, threads s !! t = Some th → wk_holds (pc th) = true →
           m_conditionMutex s = Some (ByWorker t)) →
  (ctl_holds (ctl s) = true → m_conditionMutex s = Some ByController) →
  step debug a s = Some s' →
  (∀ t th, threads s' !! t = Some th → wk_holds (pc th) = true →
           m_conditionMutex s' = Some (ByWorker t)) ∧
  (ctl_holds (ctl s') = true → m_conditionMutex s' = Some ByController).
Proof.
  intros HW HC Hs. apply step_not_aborted in Hs as [_ Hs].
  destruct a as [op| |t alt].
  - unfold call_step in Hs. destruct (ctl s) eqn:Hc; try done.
    injection Hs as <-. cbn. split; [done|]. by destruct op.
  - ctl_cases Hs; cbn; split.
    all: try (intros Hh; first [done | by apply HC]).
    all: try (unfold after_run_exchange; destruct (m_state s), debug; done).
    all: intros t0 th0 Hth0 Hh; split_lookup; cbn in *; try done.
    all: try match goal with
         | H : pc ?a = pc _, Hh' : wk_holds (pc ?a) = true |- _ =>
             rewrite H in Hh'
         | H : pc ?a = WWoken, Hh' : wk_holds (pc ?a) = true |- _ =>
             by rewrite H in Hh'
         end.
    all: pose proof (HW _ _ Hth0 Hh); try done.
    all: try (specialize (HC eq_refl)); congruence.
  - worker_cases Hs t Ht; cbn; split.
    all: try (intros Hh; specialize (HC Hh);
              try (pose proof (HW _ _ Ht eq_refl)); congruence).
    all: intros t0 th0 Hth0 Hh; split_lookup; cbn in *; try done.
    all: try (by apply (HW _ _ Hth0)).
    all: try (pose proof (HW _ _ Hth0 Hh); congruence).
    all: try (pose proof (HW _ _ Ht eq_refl); pose proof (HW _ _ Hth0 Hh);
              congruence).
    by apply (HW _ _ Ht).
Qed.

Lemma mutex_held_exec (l : list action) (s s' : System) :
  (∀ t th, threads s !! t = Some th → wk_holds (pc th) = true →
           m_conditionMutex s = Some (ByWorker t)) →
  (ctl_holds (ctl s) = true → m_conditionMutex s = Some ByController) →
  exec debug l s = Some s' →
  (∀ t th, threads s' !! t = Some th → wk_holds (pc th) = true →
           m_conditionMutex s' = Some (ByWorker t)) ∧
  (ctl_holds (ctl s') = true → m_conditionMutex s' = Some ByController).
Proof.
  revert s. induction l as [|a l IH]; intros s HW HC Hl; cbn in Hl.
  - by injection Hl as <-.
  - destruct (step debug a s) as [s1|] eqn:Ha; [|done].
    destruct (mutex_held_step _ _ _ HW HC Ha) as [HW1 HC1]. by eapply IH.
Qed.

(** X7: [m_conditionMutex] excludes: in every reachable state a worker
    that evaluates the wait predicate or is about to drop its lock is the
    holder of the mutex, the controlling thread between its lock and its
    unlock (around [notify_all]) is the holder, and so the two are never
    in these positions together, nor are two workers. *)
Theorem X7_mutex_exclusion (s : System) :
  reachable debug s →
  (∀ t p, thread_at s t p → wk_holds p = true →
          m_conditionMutex s = Some (ByWorker t)) ∧
  (ctl_holds (ctl s) = true → m_conditionMutex s = Some ByController) ∧
  (∀ t p, thread_at s t p → wk_holds p = true → ctl_holds (ctl s) = false) ∧
  (∀ t1 t2 p1 p2, thread_at s t1 p1 → thread_at s t2 p2 →
                  wk_holds p1 = true → wk_holds p2 = true → t1 = t2).
Proof.
  intros [l Hl].
  destruct (mutex_held_exec l AsyncTask s) as [HW HC]; try done.
  split_and!; try done.
  - intros t p (th & Hth & <-) Hh. by eapply HW.
  - intros t p (th & Hth & <-) Hh.
    destruct (ctl_holds (ctl s)) eqn:Hc; [|done].
    specialize (HC eq_refl). specialize (HW _ _ Hth Hh). congruence.
  - intros t1 t2 p1 p2 (th1 & H1 & <-) (th2 & H2 & <-) Hh1 Hh2.
    specialize (HW _ _ H1 Hh1) as Hm1. specialize (HW _ _ H2 Hh2) as Hm2.
    congruence.
Qed.

(** ** Coalescing *)

Lemma run_credit_step (a : action) (s s' : System) :
  step debug a s = Some s' →
  run_credit s' ≤ run_credit s + run_calls [a].
Proof.
  intros Hs. apply step_not_aborted in Hs as [_ Hs]. unfold run_credit.
  destruct a as [op| |t alt].
  - unfold call_step in Hs. destruct (ctl s) eqn:Hc; try done.
    injection Hs as <-. destruct op; cbn; repeat case_decide; lia.
  - ctl_cases Hs; cbn.
    all: try (unfold after_run_exchange; destruct (m_state s), debug; cbn).
    all: repeat case_decide; try lia; congruence.
  - worker_cases Hs t Ht; cbn.
    all: destruct (ctl s); repeat case_decide; try lia; congruence.
Qed.

(** X5: the callable is never invoked more often than [run()] was called:
    run requests coalesce, every invocation consumes the [RunRequested]
    that a [run()] stored, and neither [stop()], a timeout, a wake-up nor a
    spuriously failing CAS produces an invocation. *)
Theorem X5_invocations_bounded_by_requests (l : list action) (s : System) :
  exec debug l AsyncTask = Some s →
  invoked s ≤ run_calls l.
Proof.
  assert (Hgen : ∀ l s0 s1, exec debug l s0 = Some s1 →
                            run_credit s1 ≤ run_credit s0 + run_calls l).
  { clear. intros l. induction l as [|a l IH]; intros s0 s1 Hl; cbn in Hl.
    - injection Hl as <-. cbn. lia.
    - destruct (step debug a s0) as [s2|] eqn:Ha; [|done].
      apply run_credit_step in Ha. apply IH in Hl.
      cbn in Ha. destruct a as [[]| |]; cbn in *; lia. }
  intros Hl. apply Hgen in Hl. revert Hl. unfold run_credit. cbn.
  repeat case_decide; try done; destruct (ctl s); lia.
Qed.

(** ** No lost wake-up *)

Lemma lookup_wake_not_blocked (l : list thread) (t : nat) (th : thread) :
  (wake <$> l) !! t = Some th → pc th ≠ WBlocked.
Proof.
  rewrite list_lookup_fmap. destruct (l !! t) as [[p log]|]; [|done].
  intros [= <-]. unfold wake. by destruct p.
Qed.

Lemma wake_pending_step (a : action) (s s' : System) :
  Inv s →
  (∀ t th, threads s !! t = Some th → pc th = WBlocked →
           m_state s ≠ Sleeping → notify_ahead (ctl s) = true) →
  step debug a s = Some s' →
  ∀ t th, threads s' !! t = Some th → pc th = WBlocked →
          m_state s' ≠ Sleeping → notify_ahead (ctl s') = true.
Proof.
  intros [HT _ _ _ _ _] HB Hs. apply step_not_aborted in Hs as [_ Hs].
  destruct a as [op| |t alt].
  - unfold call_step in Hs. destruct (ctl s) eqn:Hc; try done.
    injection Hs as <-. cbn. intros t th Hth Hp Hst.
    by specialize (HB _ _ Hth Hp Hst).
  - ctl_cases Hs; cbn; intros t0 th0 Hth0 Hp Hst;
      try (by apply lookup_wake_not_blocked in Hth0); split_lookup;
      cbn in *; try done; try congruence.
    all: try (by specialize (HB _ _ Hth0 Hp Hst)).
    all: try (unfold after_run_exchange; destruct (m_state s) eqn:Hm; try done).
    all: try (assert (false = true)
                by (apply (HB _ _ Hth0 Hp); congruence); done).
  - worker_cases Hs t Ht; cbn; intros t0 th0 Hth0 Hp Hns; split_lookup;
      cbn in *; try done; try congruence.
    all: try (by apply (HB _ _ Hth0 Hp)).
    all: try (apply (HB _ _ Hth0 Hp); congruence).
    all: pose proof (ti_handle _ _ _ (HT _ _ Ht) eq_refl);
         assert (in_loop (pc th0) = true) as Hl0 by (by rewrite Hp);
         pose proof (ti_handle _ _ _ (HT _ _ Hth0) Hl0); congruence.
Qed.

Lemma wake_pending_exec (l : list action) (s s' : System) :
  Inv s →
  (∀ t th, threads s !! t = Some th → pc th = WBlocked →
           m_state s ≠ Sleeping → notify_ahead (ctl s) = true) →
  exec debug l s = Some s' →
  ∀ t th, threads s' !! t = Some th → pc th = WBlocked →
          m_state s' ≠ Sleeping → notify_ahead (ctl s') = true.
Proof.
  revert s. induction l as [|a l IH]; intros s HI HB Hl; cbn in Hl.
  - by injection Hl as <-.
  - destruct (step debug a s) as [s1|] eqn:Ha; [|done].
    eapply (IH s1); [by eapply Inv_step| |done].
    by eapply wake_pending_step.
Qed.

(** X4: no wake-up is lost. In every reachable state, a worker blocked on
    the condition while the register no longer reads [Sleeping] has a
    [notify_all] ahead of it: the controlling thread is between the
    exchange that replaced [Sleeping] and its [notify_all] (lines 98-103,
    115-121). That [notify_all] leaves no thread blocked. *)
Theorem X4_no_lost_wakeup (s : System) :
  reachable debug s →
  (∀ t, thread_at s t WBlocked → m_state s ≠ Sleeping →
        notify_ahead (ctl s) = true) ∧
  (∀ s', ctl s = CRunNotify ∨ ctl s = CStopNotify →
         step debug Ctl s = Some s' →
         notified s' = S (notified s) ∧ ∀ t, ¬ thread_at s' t WBlocked).
Proof.
  intros [l Hl]. split.
  - intros t (th & Hth & Hp) Hst.
    eapply (wake_pending_exec l AsyncTask s); try done.
  - intros s' Hc Hs. apply step_not_aborted in Hs as [_ Hs].
    unfold ctl_step, notify_all in Hs.
    destruct Hc as [Hc|Hc]; rewrite Hc in Hs; injection Hs as <-; cbn.
    all: split; [done|]; intros t (th & Hth & Hp).
    all: by apply lookup_wake_not_blocked in Hth.
Qed.


(** ** [stop()] with a worker in the loop *)




(** ** The idle worker leaves on its own *)

Lemma idle_step (s : System) (t : nat) (th : thread) :
  Inv s → ctl s = COutside →
  threads s !! t = Some th → pc th ≠ WDone →
  in_loop (pc th) = true ∨ m_state s = Exited →
  ∃ alt s1 th1,
    step debug (Wk t alt) s = Some s1 ∧
    ctl s1 = COutside ∧
    threads s1 !! t = Some th1 ∧
    steps_to_idle_exit (pc th1) (m_state s1)
      < steps_to_idle_exit (pc th) (m_state s) ∧
    (in_loop (pc th1) = true ∨ m_state s1 = Exited) ∧
    (invoked s1 = invoked s ∨
     invoked s1 = S (invoked s) ∧
     steps_to_idle_exit (pc th1) (m_state s1) ≤ 9 ∧
     10 ≤ steps_to_idle_exit (pc th) (m_state s)).
Proof.
  intros HI Hc Hth Hpc Hin.
  assert (Hlt : t < length (threads s)) by (by eapply lookup_lt_Some).
  pose proof (inv_thread _ HI _ _ Hth) as [_ Hex _ Her Hwait _ _ _].
  rewrite Hc in Her. cbn in Her.
  assert (Hmx : in_loop (pc th) = true → wk_holds (pc th) = false →
                m_conditionMutex s = None).
  { intros. eapply mutex_free_for; try done. by rewrite Hc. }
  exists (match pc th with WBlocked => true | _ => false end).
  unfold step, worker_step. rewrite Hc, Hth.
  destruct th as [p log]; cbn in *.
  unfold cas_step, compare_exchange_weak, cas_outcome.
  destruct p; try done; cbn in *.
  all: rewrite ?Hmx by done; cbn.
  all: destruct (m_state s) eqn:Hst; cbn;
       try (by (specialize (Hex eq_refl)));
       try (by (specialize (Her eq_refl eq_refl)));
       try (by (specialize (Hwait eq_refl)));
       try (by destruct Hin).
  all: repeat case_decide; try done.
  all: eexists; eexists; (split; [done|]); cbn.
  all: rewrite list_lookup_insert_eq by done.
  all: split_and!; try done; cbn; rewrite ?Hst; auto; try lia.
  all: right; split_and!; try done; lia.
Qed.

Lemma idle_exit_within (n : nat) (s : System) (t : nat) (th : thread) :
  Inv s → ctl s = COutside →
  threads s !! t = Some th →
  in_loop (pc th) = true ∨ m_state s = Exited →
  steps_to_idle_exit (pc th) (m_state s) ≤ n →
  ∃ l s',
    exec debug l s = Some s' ∧ worker_only l ∧
    thread_at s' t WDone ∧ ctl s' = COutside ∧
    m_state s' = Exited ∧
    invoked s' ≤
      invoked s +
      (if decide (steps_to_idle_exit (pc th) (m_state s) ≤ 9) then 0 else 1).
Proof.
  revert s th. induction n as [|n IH]; intros s th HI Hc Hth Hin Hn.
  all: destruct (decide (pc th = WDone)) as [Hd|Hd].
  1, 3: exists [], s; cbn; split_and!;
          [done|apply Forall_nil_2|by exists th|done
          |rewrite Hd in Hin; by destruct Hin|case_decide; lia].
  - exfalso. revert Hn Hd. destruct th as [[] ?], (m_state s); cbn; first [lia|done].
  - destruct (idle_step s t th HI Hc Hth Hd Hin)
      as (alt & s1 & th1 & Hs1 & Hc1 & Hth1 & Hlt & Hin1 & Hinv).
    destruct (IH s1 th1) as (l & s' & Hl & Hw & Hat & Hc' & Hst & Hi);
      try done; [by eapply Inv_step|lia|].
    exists (Wk t alt :: l), s'. cbn. rewrite Hs1. split_and!; try done.
    + by apply Forall_cons.
    + revert Hi. repeat case_decide; lia.
Qed.

(** X8: a worker in the loop leaves on its own when the controlling thread
    stays outside the member functions: by worker steps alone - serving a
    pending request once, going idle, the timeout of [exitDelay], the third
    CAS - the thread reaches its end with the register reading [Exited],
    and at most one invocation happens on the way. *)
Theorem X8_idle_worker_exits (s : System) (t : nat) (p : wpc) :
  reachable debug s → ctl s = COutside →
  thread_at s t p → in_loop p = true →
  ∃ l s',
    exec debug l s = Some s' ∧ worker_only l ∧
    thread_at s' t WDone ∧ m_state s' = Exited ∧ ctl s' = COutside ∧
    invoked s' ≤ S (invoked s).
Proof.
  intros Hr Hc (th & Hth & <-) Hl.
  destruct (idle_exit_within _ s t th (Inv_reachable _ _ Hr) Hc Hth
              (or_introl Hl) (le_n _))
    as (l & s' & Hex & Hw & Hat & Hc' & Hst & Hi).
  exists l, s'. split_and!; try done. revert Hi. case_decide; lia.
Qed.

(** ** [run()] does not wait for the worker *)

(** Every step of [run()] brings it nearer to its return. *)
Lemma run_rank_step (s s' : System) :
  op_of (ctl s) = Some Run → step debug Ctl s = Some s' →
  run_rank (ctl s') < run_rank (ctl s).
Proof.
  intros Hop Hs. apply step_not_aborted in Hs as [_ Hs].
  unfold ctl_step, exchange, after_run_exchange in Hs.
  destruct (ctl s); try done; cbn in *.
  all: repeat match type of Hs with
       | context [decide ?P] => destruct (decide P)
       | context [m_conditionMutex ?x] => destruct (m_conditionMutex x)
       | context [m_state ?x] => destruct (m_state x)
       | context [if debug then _ else _] => destruct debug
       end; try done.
  all: injection Hs as <-; cbn; lia.
Qed.

(** The worker threads do not move the controlling thread. *)
Lemma worker_step_ctl (t : nat) (alt : bool) (s s' : System) :
  step debug (Wk t alt) s = Some s' → ctl s' = ctl s.
Proof.
  intros Hs. apply step_not_aborted in Hs as [_ Hs].
  worker_cases Hs t Ht; done.
Qed.

(** Inside [run()] only the lock of line 120 can hold the controlling
    thread up, and only while a worker is inside its wait. *)
Lemma run_blocked (s : System) :
  Inv s → op_of (ctl s) = Some Run → step debug Ctl s = None →
  ctl s = CRunLock ∧
  ∃ t, m_conditionMutex s = Some (ByWorker t) ∧
       (thread_at s t WWaitPred ∨ thread_at s t WUnlock).
Proof.
  intros HI Hop Hs. unfold step, ctl_step, exchange in Hs.
  destruct (ctl s) eqn:Hc; try done; cbn in Hs.
  - by destruct (decide _).
  - split; [done|].
    destruct (m_conditionMutex s) as [[|t]|] eqn:Hmx; [| |done].
    + pose proof (inv_mutex_ctl _ HI Hmx) as Hh. by rewrite Hc in Hh.
    + destruct (inv_mutex_worker _ HI _ Hmx) as (th & Hth & Hh).
      exists t. split; [done|].
      destruct th as [p log]. destruct p; try done; [left|right]; by eexists.
Qed.

(** The holder of the mutex releases it within two steps of its own: it
    blocks in the wait, or leaves the wait and unlocks. *)
Lemma holder_releases (s : System) (t : nat) :
  Inv s → ctl s ≠ CAborted → m_conditionMutex s = Some (ByWorker t) →
  (thread_at s t WWaitPred ∨ thread_at s t WUnlock) ∧
  ∃ pre u,
    exec debug pre s = Some u ∧
    length pre ≤ 2 ∧ (∀ a, a ∈ pre → a = Wk t false) ∧
    m_conditionMutex u = None ∧ ctl u = ctl s.
Proof.
  intros HI Hc Hmx.
  destruct (inv_mutex_worker _ HI _ Hmx) as (th & Hth & Hh).
  assert (Hlt : t < length (threads s)) by (by eapply lookup_lt_Some).
  assert (Hstep : ∀ s0, ctl s0 = ctl s →
            step debug (Wk t false) s0 = worker_step t false s0).
  { intros s0 Hc0. unfold step. rewrite Hc0. by destruct (ctl s). }
  assert (Hin1 : ∀ a, a ∈ [Wk t false] → a = Wk t false).
  { intros a Ha. by apply list_elem_of_singleton in Ha. }
  assert (Hin2 : ∀ a, a ∈ [Wk t false; Wk t false] → a = Wk t false).
  { intros a Ha. apply elem_of_cons in Ha as [->|Ha]; [done|].
    by apply list_elem_of_singleton in Ha. }
  destruct th as [p log]. destruct p; try done; cbn in *.
  - split; [left; by eexists|].
    destruct (decide (m_state s ≠ Sleeping)) as [Hst|Hst].
    + eexists [Wk t false; Wk t false], _. split.
      { cbn. rewrite Hstep by done. unfold worker_step. rewrite Hth. cbn.
        rewrite decide_True by done. rewrite Hstep by done.
        unfold worker_step. cbn.
        rewrite list_lookup_insert_eq by done. cbn. done. }
      split_and!; [cbn; lia|done|done|done].
    + eexists [Wk t false], _. split.
      { cbn. rewrite Hstep by done. unfold worker_step. rewrite Hth. cbn.
        by rewrite decide_False by done. }
      split_and!; [cbn; lia|done|done|done].
  - split; [right; by eexists|].
    eexists [Wk t false], _. split.
    { cbn. rewrite Hstep by done. unfold worker_step. by rewrite Hth. }
    split_and!; [cbn; lia|done|done|done].
Qed.

(** With the mutex free, [run()] returns in at most five steps of its own. *)
Lemma run_alone (s : System) :
  op_of (ctl s) = Some Run →
  (ctl_holds (ctl s) = false → m_conditionMutex s = None) →
  ∃ l s',
    exec debug l s = Some s' ∧ length l ≤ run_rank (ctl s) ∧
    (∀ a, a ∈ l → a = Ctl) ∧
    (ctl s' = COutside ∨ debug = true ∧ ctl s' = CAborted).
Proof.
  intros Hop Hfree.
  assert (Hnow : ∀ s0 n,
            ctl s0 = COutside ∨ debug = true ∧ ctl s0 = CAborted →
            ∃ l s', exec debug l s0 = Some s' ∧ length l ≤ n ∧
              (∀ a, a ∈ l → a = Ctl) ∧
              (ctl s' = COutside ∨ debug = true ∧ ctl s' = CAborted)).
  { intros s0 n Hret. exists [], s0. split_and!; [done|cbn; lia| |done].
    intros a Ha. by apply elem_of_nil in Ha. }
  assert (Hcons : ∀ s0 s1 n,
            step debug Ctl s0 = Some s1 →
            (∃ l s', exec debug l s1 = Some s' ∧ length l ≤ n ∧
               (∀ a, a ∈ l → a = Ctl) ∧
               (ctl s' = COutside ∨ debug = true ∧ ctl s' = CAborted)) →
            ∃ l s', exec debug l s0 = Some s' ∧ length l ≤ S n ∧
              (∀ a, a ∈ l → a = Ctl) ∧
              (ctl s' = COutside ∨ debug = true ∧ ctl s' = CAborted)).
  { intros s0 s1 n Hs (l & s' & Hl & Hlen & Hin & Hret).
    exists (Ctl :: l), s'. cbn. rewrite Hs. split_and!; [done|lia| |done].
    intros a Ha. apply elem_of_cons in Ha as [->|Ha]; [done|by apply Hin]. }
  assert (Hunlock : ∀ s0, ctl s0 = CRunUnlock →
            ∃ l s', exec debug l s0 = Some s' ∧ length l ≤ 1 ∧
              (∀ a, a ∈ l → a = Ctl) ∧
              (ctl s' = COutside ∨ debug = true ∧ ctl s' = CAborted)).
  { intros s0 Hc0. eapply Hcons; [by apply unlock_step_effect; left|].
    apply Hnow. by left. }
  assert (Hnotify : ∀ s0, ctl s0 = CRunNotify →
            ∃ l s', exec debug l s0 = Some s' ∧ length l ≤ 2 ∧
              (∀ a, a ∈ l → a = Ctl) ∧
              (ctl s' = COutside ∨ debug = true ∧ ctl s' = CAborted)).
  { intros s0 Hc0.
    destruct (notify_step_effect debug s0 CRunUnlock) as (u & Hu & Hcu & _);
      [by left|].
    eapply Hcons; [exact Hu|]. by apply Hunlock. }
  assert (Hlock : ∀ s0, ctl s0 = CRunLock → m_conditionMutex s0 = None →
            ∃ l s', exec debug l s0 = Some s' ∧ length l ≤ 3 ∧
              (∀ a, a ∈ l → a = Ctl) ∧
              (ctl s' = COutside ∨ debug = true ∧ ctl s' = CAborted)).
  { intros s0 Hc0 Hm0.
    destruct (lock_step_effect debug s0 CRunNotify) as [_ Hs0]; [by left|].
    eapply Hcons; [by apply Hs0|]. by apply Hnotify. }
  assert (Hspawn : ∀ s0, ctl s0 = CRunSpawn →
            ∃ l s', exec debug l s0 = Some s' ∧ length l ≤ 1 ∧
              (∀ a, a ∈ l → a = Ctl) ∧
              (ctl s' = COutside ∨ debug = true ∧ ctl s' = CAborted)).
  { intros s0 Hc0. eapply Hcons.
    - unfold step, ctl_step. by rewrite Hc0.
    - apply Hnow. by left. }
  assert (Hexch : ∀ s0, ctl s0 = CRunExchange → m_conditionMutex s0 = None →
            ∃ l s', exec debug l s0 = Some s' ∧ length l ≤ 4 ∧
              (∀ a, a ∈ l → a = Ctl) ∧
              (ctl s' = COutside ∨ debug = true ∧ ctl s' = CAborted)).
  { intros s0 Hc0 Hm0.
    assert (H1 : step debug Ctl s0 =
                 Some (set_ctl (after_run_exchange debug (m_state s0))
                         (set_state RunRequested s0))).
    { unfold step, ctl_step, exchange. by rewrite Hc0. }
    eapply Hcons; [exact H1|].
    unfold after_run_exchange. destruct (m_state s0).
    - destruct (Hspawn (set_ctl CRunSpawn (set_state RunRequested s0)) eq_refl)
        as (l & s' & Hl & Hlen & Hrest).
      exists l, s'. split_and!; [done|lia|apply Hrest|apply Hrest].
    - destruct debug eqn:Hd.
      + apply Hnow. by right.
      + destruct (Hspawn (set_ctl CRunSpawn (set_state RunRequested s0))
                    eq_refl) as (l & s' & Hl & Hlen & Hrest).
        exists l, s'. split_and!; [done|lia|apply Hrest|apply Hrest].
    - by apply Hlock.
    - apply Hnow. by left.
    - apply Hnow. by left. }
  destruct (ctl s) eqn:Hc; try done; cbn in Hfree |- *.
  - (* the test of line 88 *)
    destruct (decide (m_state s = RunRequested)) as [Hst|Hst].
    + destruct (Hcons s (set_ctl COutside s) 0) as (l & s' & Hl & Hlen & Hrest).
      { unfold step, ctl_step. rewrite Hc. by rewrite decide_True. }
      { apply Hnow. by left. }
      exists l, s'. split_and!; [done|lia|apply Hrest|apply Hrest].
    + eapply Hcons.
      { unfold step, ctl_step. rewrite Hc. by rewrite decide_False. }
      apply Hexch; [done|by apply Hfree].
  - by apply Hexch; [|apply Hfree].
  - by apply Hlock; [|apply Hfree].
  - by apply Hnotify.
  - by apply Hunlock.
  - by apply Hspawn.
Qed.

(** X9: [run()] never waits for the callable or for the worker to leave.
    In every state reachable with one call at a time in which the
    controlling thread is inside [run()]: each of its steps brings it
    nearer to its return, which is at most five of its own steps away, and
    no step of a worker moves it; its next step can be taken unless it is
    at the lock of line 120 and a worker holds the wait mutex, and that
    worker is then testing the wait condition or leaving the wait, not
    executing the callable; and the call does return after at most two
    steps of the thread that holds the mutex, if there is one, followed by
    at most five steps of the controlling thread alone, with no step of
    any other thread. Where assertions are compiled in, the call may stop
    at the failed [BASSERT] instead of returning. *)
Theorem X9_run_returns (s : System) :
  reachable debug s → op_of (ctl s) = Some Run →
  run_rank (ctl s) ≤ 5 ∧
  (∀ s', step debug Ctl s = Some s' → run_rank (ctl s') < run_rank (ctl s)) ∧
  (∀ t alt s', step debug (Wk t alt) s = Some s' → ctl s' = ctl s) ∧
  (step debug Ctl s = None →
     ctl s = CRunLock ∧
     ∃ t, m_conditionMutex s = Some (ByWorker t) ∧
          (thread_at s t WWaitPred ∨ thread_at s t WUnlock)) ∧
  ∃ pre l s',
    exec debug (pre ++ l) s = Some s' ∧
    length pre ≤ 2 ∧
    (∀ a, a ∈ pre →
       ∃ t, a = Wk t false ∧ m_conditionMutex s = Some (ByWorker t) ∧
            (thread_at s t WWaitPred ∨ thread_at s t WUnlock)) ∧
    length l ≤ 5 ∧
    (∀ a, a ∈ l → a = Ctl) ∧
    (ctl s' = COutside ∨ debug = true ∧ ctl s' = CAborted).
Proof.
  intros Hr Hop. pose proof (Inv_reachable _ _ Hr) as HI.
  assert (Hrank : run_rank (ctl s) ≤ 5) by (destruct (ctl s); cbn; lia).
  split; [done|].
  split; [intros s'; by apply run_rank_step|].
  split; [intros t alt s'; apply worker_step_ctl|].
  split; [by apply run_blocked|].
  destruct (m_conditionMutex s) as [[|t]|] eqn:Hmx.
  - (* the controlling thread holds the mutex itself *)
    pose proof (inv_mutex_ctl _ HI Hmx) as Hh.
    destruct (run_alone s Hop) as (l & s' & Hl & Hlen & Hin & Hret).
    { intros Hn. congruence. }
    exists [], l, s'. split_and!; [done|cbn; lia| |lia|done|done].
    intros a Ha. by apply elem_of_nil in Ha.
  - (* a worker holds it *)
    assert (Hna : ctl s ≠ CAborted) by (by destruct (ctl s)).
    destruct (holder_releases s t HI Hna Hmx)
      as (Hat & pre & u & Hpre & Hlen & Hin & Hfree & Hcu).
    destruct (run_alone u) as (l & s' & Hl & Hlen' & Hin' & Hret).
    { by rewrite Hcu. }
    { done. }
    exists pre, l, s'. rewrite (exec_app _ _ _ _ _ Hpre).
    split_and!; [done|done| |rewrite Hcu in Hlen'; lia|done|done].
    intros a Ha. exists t. by rewrite (Hin a Ha).
  - destruct (run_alone s Hop) as (l & s' & Hl & Hlen & Hin & Hret); [done|].
    exists [], l, s'. split_and!; [done|cbn; lia| |lia|done|done].
    intros a Ha. by apply elem_of_nil in Ha.
Qed.

(** ** No request is lost *)

Lemma request_pending_step (a : action) (s s' : System) (t : nat) :
  Inv s → request_pending s t →
  step debug a s = Some s' → a ≠ Call Stop → invoked s' = invoked s →
  request_pending s' t.
Proof.
  intros [HT _ _ _ _ _] (Hst & Hctl & p & (th & Hth & <-) & Hl) Hs Ha Hi.
  apply step_not_aborted in Hs as [_ Hs]. unfold request_pending.
  assert (Hlt : t < length (threads s)) by (by eapply lookup_lt_Some).
  destruct a as [[]| |t' alt]; try done.
  - unfold call_step in Hs. destruct (ctl s); try done. injection Hs as <-.
    cbn. split_and!; try done. exists (pc th). split; [by exists th|done].
  - ctl_cases Hs; cbn in *; try done.
    all: try rewrite Hst; cbn.
    all: split_and!; try done.
    all: try (exists (pc th); split; [by exists th|done]).
    all: try (exists (pc (wake th)); split;
              [exists (wake th); split; [by apply lookup_wake_of|done]
              |unfold wake; by destruct th as [[] ?]]).
    all: exists (pc th); split; [|done]; exists th; split; [|done].
    all: by apply lookup_app_l_Some.
  - destruct (decide (t' = t)) as [->|Hne].
    + destruct th as [p0 log0].
      worker_cases Hs t Ht; injection Hth as <- <-; cbn in *;
        try congruence; try lia.
      all: split_and!; try done.
      all: eexists; split; [by apply thread_at_insert|done].
    + worker_cases Hs t' Ht'.
      all: try (pose proof (ti_handle _ _ _ (HT _ _ Ht') eq_refl);
                pose proof (ti_handle _ _ _ (HT _ _ Hth) Hl); congruence).
      all: cbn; split_and!; try done.
      all: exists (pc th); split; [|done].
      all: exists th; cbn; by rewrite list_lookup_insert_ne.
Qed.

Lemma request_pending_exec (l : list action) (s s' : System) (t : nat) :
  Inv s → request_pending s t →
  exec debug l s = Some s' → Call Stop ∉ l → invoked s' = invoked s →
  request_pending s' t.
Proof.
  revert s. induction l as [|a l IH]; intros s HI HP Hs Hl Hi; cbn in Hs.
  - by injection Hs as <-.
  - destruct (step debug a s) as [s1|] eqn:Ha; [|done].
    pose proof (invoked_mono _ _ _ _ Ha).
    pose proof (exec_invoked_mono _ _ _ _ Hs).
    apply not_elem_of_cons in Hl as [Hne Hl].
    apply (IH s1); try done; [by eapply Inv_step| |lia].
    eapply request_pending_step; try done. lia.
Qed.

Lemma request_served_within (n : nat) (s : System) (t : nat) (th : thread) :
  Inv s → ctl s = COutside → m_state s = RunRequested →
  threads s !! t = Some th → in_loop (pc th) = true →
  steps_to_idle_exit (pc th) (m_state s) ≤ n →
  ∃ l s', exec debug l s = Some s' ∧ worker_only l ∧
          invoked s' = S (invoked s).
Proof.
  revert s th. induction n as [|n IH]; intros s th HI Hc Hst Hth Hl Hn.
  - exfalso. revert Hn Hl. rewrite Hst. destruct th as [[] ?]; cbn; first [lia|done].
  - assert (Hd : pc th ≠ WDone) by (intros Hd; by rewrite Hd in Hl).
    destruct (idle_step s t th HI Hc Hth Hd (or_introl Hl))
      as (alt & s1 & th1 & Hs1 & Hc1 & Hth1 & Hlt & Hin1 & Hinv).
    destruct Hinv as [Hi|(Hi & _)].
    + assert (HP : request_pending s1 t).
      { eapply request_pending_step; try done.
        split_and!; [done|by rewrite Hc|]. exists (pc th). split; [by exists th|done]. }
      destruct HP as (Hst1 & _ & p1 & (th1' & Hth1' & <-) & Hl1).
      rewrite Hth1 in Hth1'. injection Hth1' as <-.
      destruct (IH s1 th1) as (l & s' & Hl' & Hw & Hi'); try done;
        [by eapply Inv_step|lia|].
      exists (Wk t alt :: l), s'. cbn. rewrite Hs1.
      split_and!; [done|by apply Forall_cons|congruence].
    + exists [Wk t alt], s1. cbn. rewrite Hs1.
      split_and!; [done|by apply Forall_cons|done].
Qed.

(** X12: no run request is lost. When the register reads [RunRequested]
    while a worker thread is in the loop - whatever the worker is doing:
    inside the callable, going idle, waiting, timing out, attempting an
    exit CAS - then, as long as [stop()] is not called and no further
    invocation has begun, the register keeps reading [RunRequested] and the
    thread stays in the loop: it cannot store [Sleeping] or [Exited] first.
    Once the controlling thread is outside the member functions, the worker
    reaches the next invocation by its own steps. *)
Theorem X12_request_not_lost
    (s s' : System) (t : nat) (p : wpc) (l : list action) :
  reachable debug s →
  m_state s = RunRequested → thread_at s t p → in_loop p = true →
  op_of (ctl s) ≠ Some Stop →
  exec debug l s = Some s' → Call Stop ∉ l → invoked s' = invoked s →
  m_state s' = RunRequested ∧
  (∃ p', thread_at s' t p' ∧ in_loop p' = true) ∧
  (ctl s' = COutside →
   ∃ l' s'', exec debug l' s' = Some s'' ∧ worker_only l' ∧
             invoked s'' = S (invoked s)).
Proof.
  intros Hr Hst Hat Hl Hop Hex Hns Hi.
  pose proof (Inv_reachable _ _ Hr) as HI.
  assert (HP : request_pending s' t).
  { eapply request_pending_exec; try done. split_and!; eauto. }
  assert (HI' : Inv s') by (by eapply Inv_exec).
  destruct HP as (Hst' & _ & p' & (th' & Hth' & <-) & Hl').
  split_and!; [done|by exists (pc th'); split; [exists th'|]|].
  intros Hc'.
  destruct (request_served_within _ s' t th' HI' Hc' Hst' Hth' Hl' (le_n _))
    as (l' & s'' & Hl'' & Hw & Hi'').
  exists l', s''. split_and!; [done..|congruence].
Qed.

(** ** Thread handles *)


(** ** [stop()]: the exchange *)

(** X11: the exchange of line 98 leaves [ExitRequested] in the register and
    [stop()] continues on the previous value alone. Previous [Sleeping]: it
    is at the lock of line 102, where it cannot move while the mutex is
    held; with the mutex free its next three steps are: it takes the mutex
    and changes nothing else; holding it, it calls [notify_all] once, after
    which every thread that was blocked in the wait is at its wake-up and
    every other thread is where it was; it releases the mutex, changes
    nothing else and goes on to the join. Any other previous value: it goes
    on to the join at once and touches neither the mutex nor the
    condition. *)
Theorem X11_stop_exchange (s : System) :
  ctl s = CStopExchange →
  ∃ s1,
    step debug Ctl s = Some s1 ∧
    m_state s1 = ExitRequested ∧
    s1 = set_ctl (ctl s1) (set_state ExitRequested s) ∧
    (m_state s ≠ Sleeping → ctl s1 = CStopJoin) ∧
    (m_state s = Sleeping →
       ctl s1 = CStopLock ∧
       (m_conditionMutex s ≠ None → step debug Ctl s1 = None) ∧
       (m_conditionMutex s = None →
          ∃ u1 u2 u3,
            step debug Ctl s1 = Some u1 ∧
            ctl u1 = CStopNotify ∧
            m_conditionMutex u1 = Some ByController ∧
            u1 = set_ctl CStopNotify (set_mutex (Some ByController) s1) ∧
            step debug Ctl u1 = Some u2 ∧
            ctl u2 = CStopUnlock ∧
            m_conditionMutex u2 = Some ByController ∧
            notified u2 = S (notified s) ∧
            length (threads u2) = length (threads s) ∧
            (∀ t th, threads s !! t = Some th →
               threads u2 !! t =
                 Some (mkThread
                         (if decide (pc th = WBlocked) then WWoken else pc th)
                         (attempts th))) ∧
            m_state u2 = ExitRequested ∧
            m_thread u2 = m_thread s ∧
            invoked u2 = invoked s ∧ joined u2 = joined s ∧
            detached u2 = detached s ∧
            step debug Ctl u2 = Some u3 ∧
            ctl u3 = CStopJoin ∧
            m_conditionMutex u3 = None ∧
            u3 = set_ctl CStopJoin (set_mutex None u2))).
Proof.
  intros Hc.
  assert (Hstep : step debug Ctl s =
                  Some (set_ctl (if decide (m_state s = Sleeping)
                                 then CStopLock else CStopJoin)
                          (set_state ExitRequested s))).
  { unfold step, ctl_step, exchange. by rewrite Hc. }
  eexists. split; [exact Hstep|]. cbn. split_and!; try done.
  - intros Hst. by rewrite decide_False.
  - intros Hst. rewrite decide_True by done. split; [done|].
    set (s1 := set_ctl CStopLock (set_state ExitRequested s)).
    destruct (lock_step_effect debug s1 CStopNotify) as [Hheld Hfree];
      [by right|].
    split; [exact Hheld|]. intros Hmx.
    specialize (Hfree Hmx).
    set (u1 := set_ctl CStopNotify (set_mutex (Some ByController) s1)) in *.
    destruct (notify_step_effect debug u1 CStopUnlock)
      as (u2 & Hu2 & Hc2 & Hn2 & Hl2 & Hth2 & Hst2 & Hm2 & Hh2 & Hi2 & Hj2
          & Hd2); [by right|].
    exists u1, u2, (set_ctl CStopJoin (set_mutex None u2)).
    split_and!; try done.
    by apply unlock_step_effect; right.
Qed.

End Further.

(** ** Instances of the further properties on concrete schedules *)

Lemma X1_witness :
  let s := after false in_call in
  reachable false s ∧ thread_at s 0 WCall ∧ m_thread s = Some 0.
Proof.
  assert (Hr : reachable false (after false in_call)).
  { apply reachable_after. vm_compute. reflexivity. }
  assert (Hat : thread_at (after false in_call) 0 WCall).
  { exists (mkThread WCall [Swapped]). vm_compute. split; reflexivity. }
  split; [exact Hr|]. split; [exact Hat|].
  exact (proj2 (proj1 (X1_one_thread_in_loop false _ Hr)
                  0 0 WCall WCall Hat Hat eq_refl eq_refl)).
Defined.



Lemma X4_witness :
  let s := after false run_while_asleep in
  reachable false s ∧ thread_at s 0 WBlocked ∧ m_state s ≠ Sleeping ∧
  notify_ahead (ctl s) = true.
Proof.
  assert (Hr : reachable false (after false run_while_asleep)).
  { apply reachable_after. vm_compute. reflexivity. }
  assert (Hat : thread_at (after false run_while_asleep) 0 WBlocked).
  { exists (mkThread WBlocked [Swapped; Swapped]). vm_compute.
    split; reflexivity. }
  assert (Hst : m_state (after false run_while_asleep) ≠ Sleeping).
  { vm_compute. discriminate. }
  split; [exact Hr|]. split; [exact Hat|]. split; [exact Hst|].
  exact (proj1 (X4_no_lost_wakeup false _ Hr) 0 Hat Hst).
Defined.

Lemma X5_witness :
  exec false late_request AsyncTask = Some (after false late_request) ∧
  invoked (after false late_request) ≤ run_calls late_request.
Proof.
  assert (Hl : exec false late_request AsyncTask =
               Some (after false late_request)).
  { vm_compute. reflexivity. }
  split; [exact Hl|].
  exact (X5_invocations_bounded_by_requests false _ _ Hl).
Defined.

Lemma X6_witness :
  let s := after false idle_exit in
  ctl s = COutside ∧ m_state s = Exited ∧
  ∃ s', exec false [Call Run; Ctl; Ctl; Ctl; Wk (length (threads s)) false] s
          = Some s' ∧
        invoked s' = S (invoked s).
Proof.
  assert (Hc : ctl (after false idle_exit) = COutside).
  { vm_compute. reflexivity. }
  assert (Hst : m_state (after false idle_exit) = Exited).
  { vm_compute. reflexivity. }
  split; [exact Hc|]. split; [exact Hst|].
  destruct (X6_run_respawns false _ Hc Hst) as (s' & Hl & Hi & _).
  exists s'. split; [exact Hl|exact Hi].
Defined.

Lemma X7_witness :
  let s := after false at_wait_pred in
  reachable false s ∧ thread_at s 0 WWaitPred ∧
  m_conditionMutex s = Some (ByWorker 0).
Proof.
  assert (Hr : reachable false (after false at_wait_pred)).
  { apply reachable_after. vm_compute. reflexivity. }
  assert (Hat : thread_at (after false at_wait_pred) 0 WWaitPred).
  { exists (mkThread WWaitPred [Swapped; Swapped]). vm_compute.
    split; reflexivity. }
  split; [exact Hr|]. split; [exact Hat|].
  exact (proj1 (X7_mutex_exclusion false _ Hr) 0 WWaitPred Hat eq_refl).
Defined.

Lemma X8_witness :
  let s := after false in_call in
  reachable false s ∧ ctl s = COutside ∧ thread_at s 0 WCall ∧
  ∃ l s', exec false l s = Some s' ∧ worker_only l ∧
          thread_at s' 0 WDone ∧ m_state s' = Exited.
Proof.
  assert (Hr : reachable false (after false in_call)).
  { apply reachable_after. vm_compute. reflexivity. }
  assert (Hc : ctl (after false in_call) = COutside).
  { vm_compute. reflexivity. }
  assert (Hat : thread_at (after false in_call) 0 WCall).
  { exists (mkThread WCall [Swapped]). vm_compute. split; reflexivity. }
  split; [exact Hr|]. split; [exact Hc|]. split; [exact Hat|].
  destruct (X8_idle_worker_exits false _ 0 WCall Hr Hc Hat eq_refl)
    as (l & s' & Hl & Hw & Hd & Hst & _).
  exists l, s'. split; [exact Hl|]. split; [exact Hw|].
  split; [exact Hd|exact Hst].
Defined.

Lemma X9_witness :
  let s := after false (at_wait_pred ++ [Call Run; Ctl; Ctl]) in
  reachable false s ∧ op_of (ctl s) = Some Run ∧
  step false Ctl s = None ∧
  m_conditionMutex s = Some (ByWorker 0) ∧
  ∃ pre l s',
    exec false (pre ++ l) s = Some s' ∧ length pre ≤ 2 ∧ length l ≤ 5 ∧
    ctl s' = COutside.
Proof.
  assert (Hr : reachable false
                 (after false (at_wait_pred ++ [Call Run; Ctl; Ctl]))).
  { apply reachable_after. vm_compute. reflexivity. }
  assert (Hop : op_of (ctl (after false (at_wait_pred ++ [Call Run; Ctl; Ctl])))
                = Some Run).
  { vm_compute. reflexivity. }
  split; [exact Hr|]. split; [exact Hop|].
  split; [vm_compute; reflexivity|].
  split; [vm_compute; reflexivity|].
  destruct (X9_run_returns false _ Hr Hop)
    as (_ & _ & _ & _ & pre & l & s' & Hl & Hpre & _ & Hlen & _ & Hc).
  exists pre, l, s'. split; [exact Hl|]. split; [exact Hpre|].
  split; [exact Hlen|].
  destruct Hc as [Hc|[Hd _]]; [exact Hc|discriminate Hd].
Defined.


Lemma X11_witness :
  let s := after false (asleep ++ [Call Stop]) in
  ctl s = CStopExchange ∧ m_state s = Sleeping ∧
  m_conditionMutex s = None ∧ thread_at s 0 WBlocked ∧
  ∃ s1 u1 u2 u3,
    step false Ctl s = Some s1 ∧ m_state s1 = ExitRequested ∧
    ctl s1 = CStopLock ∧
    step false Ctl s1 = Some u1 ∧ m_conditionMutex u1 = Some ByController ∧
    step false Ctl u1 = Some u2 ∧ thread_at u2 0 WWoken ∧
    notified u2 = S (notified s) ∧
    step false Ctl u2 = Some u3 ∧ m_conditionMutex u3 = None ∧
    ctl u3 = CStopJoin.
Proof.
  assert (Hc : ctl (after false (asleep ++ [Call Stop])) = CStopExchange).
  { vm_compute. reflexivity. }
  assert (Hsl : m_state (after false (asleep ++ [Call Stop])) = Sleeping).
  { vm_compute. reflexivity. }
  assert (Hmx : m_conditionMutex (after false (asleep ++ [Call Stop])) = None).
  { vm_compute. reflexivity. }
  assert (Hth : threads (after false (asleep ++ [Call Stop])) !! 0
                = Some (mkThread WBlocked [Swapped; Swapped])).
  { vm_compute. reflexivity. }
  split; [exact Hc|]. split; [exact Hsl|]. split; [exact Hmx|].
  split; [eexists; split; [exact Hth|reflexivity]|].
  destruct (X11_stop_exchange false _ Hc)
    as (s1 & Hs1 & Hst & _ & _ & Hsleeping).
  destruct (Hsleeping Hsl) as (Hc1 & _ & Hfree).
  destruct (Hfree Hmx)
    as (u1 & u2 & u3 & Hu1 & _ & Hm1 & _ & Hu2 & _ & _ & Hn2 & _ & Hw2 & _
        & _ & _ & _ & _ & Hu3 & Hc3 & Hm3 & _).
  exists s1, u1, u2, u3.
  split; [exact Hs1|]. split; [exact Hst|]. split; [exact Hc1|].
  split; [exact Hu1|]. split; [exact Hm1|]. split; [exact Hu2|].
  split; [eexists; split; [exact (Hw2 0 _ Hth)|reflexivity]|].
  split; [exact Hn2|]. split; [exact Hu3|]. split; [exact Hm3|exact Hc3].
Defined.

Lemma X12_witness :
  let s := after false run_while_asleep in
  let s' := after false (run_while_asleep ++ [Ctl; Ctl; Ctl]) in
  reachable false s ∧ m_state s = RunRequested ∧ thread_at s 0 WBlocked ∧
  op_of (ctl s) ≠ Some Stop ∧
  exec false [Ctl; Ctl; Ctl] s = Some s' ∧
  (Call Stop ∉ [Ctl; Ctl; Ctl]) ∧
  invoked s' = invoked s ∧
  m_state s' = RunRequested.
Proof.
  assert (Hr : reachable false (after false run_while_asleep)).
  { apply reachable_after. vm_compute. reflexivity. }
  assert (Hst : m_state (after false run_while_asleep) = RunRequested).
  { vm_compute. reflexivity. }
  assert (Hat : thread_at (after false run_while_asleep) 0 WBlocked).
  { exists (mkThread WBlocked [Swapped; Swapped]). vm_compute.
    split; reflexivity. }
  assert (Hop : op_of (ctl (after false run_while_asleep)) ≠ Some Stop).
  { vm_compute. discriminate. }
  assert (Hl : exec false [Ctl; Ctl; Ctl] (after false run_while_asleep) =
               Some (after false (run_while_asleep ++ [Ctl; Ctl; Ctl]))).
  { vm_compute. reflexivity. }
  assert (Hns : Call Stop ∉ [Ctl; Ctl; Ctl]).
  { apply (bool_decide_unpack _). vm_compute. exact I. }
  assert (Hi : invoked (after false (run_while_asleep ++ [Ctl; Ctl; Ctl])) =
               invoked (after false run_while_asleep)).
  { vm_compute. reflexivity. }
  split; [exact Hr|]. split; [exact Hst|]. split; [exact Hat|].
  split; [exact Hop|]. split; [exact Hl|]. split; [exact Hns|].
  split; [exact Hi|].
  exact (proj1 (X12_request_not_lost false _ _ 0 WBlocked _
                  Hr Hst Hat eq_refl Hop Hl Hns Hi)).
Defined.

